(** * MultiSheetPhotoRenamer: a shallow embedding of
      [multi_sheet_photo_renamer.py] and the properties of its matching
      and renaming core.

    The script reads product rows from a multi-sheet workbook, matches
    every row against the names of the photos of a folder (substring
    containment of the row's attribute values in the lowercased file
    name) and renames the matched photos to [<EAN>-<i><ext>].

    Layout of the development:
    - [Py]: the Python built-ins the script relies on (string methods,
      [os.path], insertion-ordered dictionaries);
    - [Platform]: the operating-system boundary ([os.rename],
      [os.listdir], the clock), kept abstract;
    - the script's functions, under the names they have in the source;
    - the theorems about them.

    Text is modelled by [string] (sequences of 8-bit characters); case
    folding and white space follow Python on the ASCII range. *)

From Stdlib Require Import Ascii NArith ZArith.
From stdpp Require Import base strings list gmap pretty.

#[local] Set Warnings "-clear-no-such-hyp".

(** ** Python built-ins *)

Module Py.

Local Open Scope Z_scope.

(** *** Characters *)

(** [c.lower()] for one character of the ASCII range: [A]-[Z] are
    moved to [a]-[z].  Python also folds the letters outside that range
    (an accented capital, say); here they are left as they are, so what
    is proved of [lower] is proved for text in ASCII. *)
Definition lower_char (c : ascii) : ascii :=
  let n := N_of_ascii c in
  if ((65 <=? n) && (n <=? 90))%N then ascii_of_N (n + 32) else c.

(** [c.isspace()] on the ASCII range: tab, line feed, vertical tab,
    form feed, carriage return, the four separators 0x1c-0x1f and the
    blank.  The white space Python knows outside ASCII (the no-break
    space, say) is not white space here, so what is proved of [strip]
    is proved for text in ASCII. *)
Definition isspace (c : ascii) : bool :=
  let n := N_of_ascii c in
  (((9 <=? n) && (n <=? 13)) || ((28 <=? n) && (n <=? 32)))%N.

(** *** String methods *)

(** [s.lower()] *)
Fixpoint lower (s : string) : string :=
  match s with
  | EmptyString => EmptyString
  | String c s' => String (lower_char c) (lower s')
  end.

(** [s.lstrip()], [s.rstrip()] and [s.strip()] *)
Fixpoint lstrip (s : string) : string :=
  match s with
  | EmptyString => EmptyString
  | String c s' => if isspace c then lstrip s' else s
  end.

Definition rstrip (s : string) : string :=
  String.rev (lstrip (String.rev s)).

Definition strip (s : string) : string := rstrip (lstrip s).

(** [s.startswith(p)] *)
Fixpoint startswith (s p : string) {struct p} : bool :=
  match p, s with
  | EmptyString, _ => true
  | String _ _, EmptyString => false
  | String a p', String b s' => Ascii.eqb a b && startswith s' p'
  end.

(** [s.endswith(p)] *)
Definition endswith (s p : string) : bool :=
  startswith (String.rev s) (String.rev p).

(** [v in s] on strings: [v] occurs in [s] at some offset. *)
Fixpoint str_in (v s : string) : bool :=
  startswith s v ||
  match s with
  | EmptyString => false
  | String _ s' => str_in v s'
  end.

(** Truth value of a string ([if valore]): non-empty. *)
Definition truthy (s : string) : bool :=
  match s with EmptyString => false | String _ _ => true end.

(** [s.rfind(c)] for a one-character needle: the last offset of [c],
    or [-1]. *)
Fixpoint rfind_from (c : ascii) (s : string) (i : Z) (last : Z) : Z :=
  match s with
  | EmptyString => last
  | String a s' => rfind_from c s' (i + 1) (if Ascii.eqb a c then i else last)
  end.

Definition rfind (s : string) (c : ascii) : Z := rfind_from c s 0 (-1).

(** [s[:n]] and [s[n:]] for [0 <= n]. *)
Fixpoint slice_to (n : nat) (s : string) : string :=
  match n, s with
  | S n', String c s' => String c (slice_to n' s')
  | _, _ => EmptyString
  end.

Fixpoint slice_from (n : nat) (s : string) : string :=
  match n, s with
  | S n', String _ s' => slice_from n' s'
  | _, _ => s
  end.

(** [str(i)] for a non-negative integer. *)
Definition str_of_nat (i : nat) : string := pretty i.

(** *** [os.path] (POSIX flavour) *)

Definition sep : ascii := "/"%char.
Definition extsep : ascii := "."%char.

(** [os.path.join(a, b)] *)
Definition path_join (a b : string) : string :=
  if startswith b (String sep EmptyString) then b
  else if negb (truthy a) || endswith a (String sep EmptyString) then a +:+ b
  else a +:+ String sep b.

(** The scan of [genericpath._splitext] that skips the leading dots of
    the last path component: is there a character other than a dot at
    an offset in [[from, from + len)]? *)
Fixpoint has_non_dot (s : string) (len : nat) : bool :=
  match len, s with
  | S len', String c s' => negb (Ascii.eqb c extsep) || has_non_dot s' len'
  | _, _ => false
  end.

(** [os.path.splitext(p)]: the pair (root, extension). *)
Definition splitext (p : string) : string * string :=
  let sepIndex := rfind p sep in
  let dotIndex := rfind p extsep in
  if (sepIndex <? dotIndex)
     && has_non_dot (slice_from (Z.to_nat (sepIndex + 1)) p)
                    (Z.to_nat (dotIndex - (sepIndex + 1)))
  then (slice_to (Z.to_nat dotIndex) p, slice_from (Z.to_nat dotIndex) p)
  else (p, EmptyString).

(** *** Dictionaries

    A Python [dict] keeps its keys unique and in insertion order, and
    both matter here: the order of [indice_file.items()] decides the
    numeric suffix a photo receives.  A dictionary with string keys is
    an association list whose keys are pairwise distinct; every
    operation below keeps them so. *)

Abbreviation dict V := (list (string * V)).

Section Dict.
Context {V : Type}.

Definition keys (d : dict V) : list string := d.*1.
Definition values (d : dict V) : list V := d.*2.
Definition items (d : dict V) : list (string * V) := d.

(** [d.get(k)] / [d[k]] ([None]: the key is absent). *)
Fixpoint get (k : string) (d : dict V) : option V :=
  match d with
  | [] => None
  | (k', v) :: d' => if decide (k = k') then Some v else get k d'
  end.

(** [k in d] *)
Definition mem (k : string) (d : dict V) : bool :=
  match get k d with Some _ => true | None => false end.

(** [d[k] = v]: an existing key keeps its position, a new key goes
    last. *)
Fixpoint set (k : string) (v : V) (d : dict V) : dict V :=
  match d with
  | [] => [(k, v)]
  | (k', v') :: d' =>
      if decide (k = k') then (k', v) :: d' else (k', v') :: set k v d'
  end.

(** Entries of [d] under another key than [k]. *)
Definition without (k : string) (d : dict V) : dict V :=
  filter (λ kv, kv.1 ≠ k) d.

(** [del d[k]]: [None] stands for the [KeyError] Python raises when
    [k] is absent. *)
Definition del (k : string) (d : dict V) : option (dict V) :=
  if mem k d then Some (without k d) else None.
End Dict.

End Py.

Import Py.

(** ** The operating-system boundary

    The script talks to its environment through [os.rename],
    [os.makedirs], [os.path.isdir]/[os.listdir], [datetime.now] and the
    external [jpegoptim] pass.  Nothing is assumed about them: they are the
    methods of an abstract platform, and every theorem below holds for
    all platforms. *)

Class Platform := {
  (** state of the file system and of the clock *)
  OS : Type;
  (** [os.rename(src, dst)]: [true] when the call returns, [false] when
      it raises; either way the environment may have changed. *)
  os_rename : string → string → OS → bool * OS;
  (** [os.listdir(folder)], guarded by [os.path.isdir(folder)]: [None]
      when [folder] is not a directory. *)
  os_listdir : string → OS → option (list string);
  (** [datetime.now().strftime(format)] *)
  datetime_now : string → OS → string * OS;
  (** [make_report_dir(reports_folder)] *)
  make_report_dir : string → OS → OS;
  (** [optimize_images_in_folder(folder)]: recompression of large
      photos, which only reports figures to the console. *)
  optimize_images_in_folder : string → OS → OS;
}.

(** ** Data *)

(** Constants of the script. *)
Definition FILE_EXTENSION : string := ".jpg".
Definition EAN_COLUMN : string := "EAN".
Definition DEFAULT_REPORTS_SUBDIR : string := "reports".
Definition DEFAULT_PHOTOS_SUBDIR : string := "photoes".
Definition DEFAULT_EXCELS_SUBDIR : string := "excels".

Definition BRAND_COLUMN_MAPPINGS : dict (list string) :=
  [ ("guess", ["Model"; "Part"; "Color"]);
    ("liujo", ["Modello"; "Parte"; "Colore"]);
    ("furla", ["Modello"; "Parte"; "Colore"; "TipoVariante"]);
    ("alviero", ["Linea"; "Modello"; "Tessuto"; "Colore"]);
    ("brand", ["Campo1"; "Campo2"]) ].

(** A cell read with [dtype=str]: its text, or [None] for a missing
    value ([NaN], for which [pd.notna] is false). *)
Definition Cell : Type := option string.

(** A row of a data frame ([pandas.Series]): cells under column labels. *)
Definition Series : Type := dict Cell.

(** What [pd.read_excel] returns for a sheet. *)
Record DataFrame := {
  df_columns : list string;
  df_rows : list Series;
}.

(** [df.iterrows()]: the rows with their (default, zero-based) index. *)
Definition iterrows (df : DataFrame) : list (nat * Series) :=
  imap (λ idx riga, (idx, riga)) (df_rows df).

(** Values stored in a report record. *)
Inductive pyval :=
| PyInt (n : nat)
| PyStr (s : string).

(** [str(v)], as [csv.DictWriter] renders a field. *)
Definition str_of_pyval (v : pyval) : string :=
  match v with
  | PyInt n => str_of_nat n
  | PyStr s => s
  end.

(** One call of [os.rename] made by [rename_files], by file name: the
    call was [os.rename(join(folder, call_file), join(folder,
    call_target))] and [call_ok] tells whether it returned. *)
Record RenameCall := {
  call_file : string;
  call_target : string;
  call_ok : bool;
}.

(** The mutable objects shared by the functions of the script, under
    the names of the variables that hold them, with the environment.
    [rename_calls] is the history of the [os.rename] calls made so far;
    the script does not read it. *)
Record Store `{Platform} := {
  indice_file : dict string;
  file_rinominati : gset string;
  ean_non_trovati : list (dict pyval);
  codeno : list string;
  codesi : list string;
  os_state : OS;
  rename_calls : list RenameCall;
}.

Section Script.
Context `{Platform}.

Definition set_os (o : OS) (st : Store) : Store :=
  {| indice_file := indice_file st; file_rinominati := file_rinominati st;
     ean_non_trovati := ean_non_trovati st; codeno := codeno st;
     codesi := codesi st; os_state := o; rename_calls := rename_calls st |}.

Definition set_indice_file (d : dict string) (st : Store) : Store :=
  {| indice_file := d; file_rinominati := file_rinominati st;
     ean_non_trovati := ean_non_trovati st; codeno := codeno st;
     codesi := codesi st; os_state := os_state st;
     rename_calls := rename_calls st |}.

Definition add_file_rinominati (f : string) (st : Store) : Store :=
  {| indice_file := indice_file st;
     file_rinominati := file_rinominati st ∪ {[ f ]};
     ean_non_trovati := ean_non_trovati st; codeno := codeno st;
     codesi := codesi st; os_state := os_state st;
     rename_calls := rename_calls st |}.

Definition log_rename (c : RenameCall) (st : Store) : Store :=
  {| indice_file := indice_file st; file_rinominati := file_rinominati st;
     ean_non_trovati := ean_non_trovati st; codeno := codeno st;
     codesi := codesi st; os_state := os_state st;
     rename_calls := rename_calls st ++ [c] |}.

Definition append_non_trovato (info : dict pyval) (ean : string)
    (st : Store) : Store :=
  {| indice_file := indice_file st; file_rinominati := file_rinominati st;
     ean_non_trovati := ean_non_trovati st ++ [info];
     codeno := codeno st ++ [ean];
     codesi := codesi st; os_state := os_state st;
     rename_calls := rename_calls st |}.

Definition append_codesi (ean : string) (st : Store) : Store :=
  {| indice_file := indice_file st; file_rinominati := file_rinominati st;
     ean_non_trovati := ean_non_trovati st; codeno := codeno st;
     codesi := codesi st ++ [ean]; os_state := os_state st;
     rename_calls := rename_calls st |}.

(** ** [rename_files] *)

(** [f"{ean}-{i}{estensione}"] with
    [estensione = os.path.splitext(vecchio_nome)[1]]. *)
Definition nuovo_nome (ean : string) (i : nat) (vecchio_nome : string)
    : string :=
  let estensione := (splitext vecchio_nome).2 in
  ean +:+ "-" +:+ str_of_nat i +:+ estensione.

(** The body of the [try]: rename, record, count, and drop the entry
    from the index.  An exception raised at any of these steps is
    caught by the [except] clause, which prints and lets the loop go
    on: a failing [os.rename] leaves index, set and counter alone; a
    [KeyError] of the final [del] comes after the set and the counter
    were updated. *)
Definition rename_one (i : nat) (vecchio_nome ean photo_folder : string)
    (conteggio_rinominati : nat) (st : Store) : nat * Store :=
  let nuovo := nuovo_nome ean i vecchio_nome in
  let vecchio_percorso := path_join photo_folder vecchio_nome in
  let nuovo_percorso := path_join photo_folder nuovo in
  let '(ok, o) := os_rename vecchio_percorso nuovo_percorso (os_state st) in
  let st := log_rename
              {| call_file := vecchio_nome; call_target := nuovo;
                 call_ok := ok |} (set_os o st) in
  if ok then
    let st := add_file_rinominati vecchio_nome st in
    let conteggio_rinominati := S conteggio_rinominati in
    match del vecchio_nome (indice_file st) with
    | Some d => (conteggio_rinominati, set_indice_file d st)
    | None => (conteggio_rinominati, st)
    end
  else (conteggio_rinominati, st).

(** [for i, vecchio_nome in enumerate(files)], from position [i]. *)
Fixpoint rename_loop (i : nat) (files : list string)
    (ean photo_folder : string) (conteggio_rinominati : nat) (st : Store)
    : nat * Store :=
  match files with
  | [] => (conteggio_rinominati, st)
  | vecchio_nome :: files' =>
      let '(conteggio_rinominati, st) :=
        rename_one i vecchio_nome ean photo_folder conteggio_rinominati st in
      rename_loop (S i) files' ean photo_folder conteggio_rinominati st
  end.

Definition rename_files (files : list string) (ean photo_folder : string)
    (st : Store) : nat * Store :=
  rename_loop 0 files ean photo_folder 0 st.

(** ** [process_sheet] *)

(** [colonna in riga and pd.notna(riga[colonna])]: the text of the cell
    when the row has the column and the cell is not missing. *)
Definition present_cell (colonna : string) (riga : Series) : option string :=
  match get colonna riga with
  | Some (Some testo) => Some testo
  | _ => None
  end.

(** The loop that fills [valori]: every present attribute cell, lowered
    and stripped, under its column name. *)
Fixpoint estrai_valori (columns_to_match : list string) (riga : Series)
    (valori : dict string) : dict string :=
  match columns_to_match with
  | [] => valori
  | colonna :: rest =>
      match present_cell colonna riga with
      | Some testo =>
          estrai_valori rest riga (set colonna (strip (lower testo)) valori)
      | None => estrai_valori rest riga valori
      end
  end.

(** The inner loop over [valori.values()], with its [break]. *)
Fixpoint tutti_presenti (valori : list string) (nome_file_lower : string)
    : bool :=
  match valori with
  | [] => true
  | valore :: rest =>
      if truthy valore && negb (str_in valore nome_file_lower) then false
      else tutti_presenti rest nome_file_lower
  end.

(** The loop over [list(indice_file.items())] that collects
    [file_corrispondenti]. *)
Fixpoint trova_file_corrispondenti (voci : list (string * string))
    (rinominati : gset string) (valori : list string) : list string :=
  match voci with
  | [] => []
  | (nome_file, nome_file_lower) :: rest =>
      if bool_decide (nome_file ∈ rinominati)
      then trova_file_corrispondenti rest rinominati valori
      else if tutti_presenti valori nome_file_lower
      then nome_file :: trova_file_corrispondenti rest rinominati valori
      else trova_file_corrispondenti rest rinominati valori
  end.

(** The loop that copies the present attribute cells, as read, into
    [info_riga]. *)
Fixpoint aggiungi_colonne (columns_to_match : list string) (riga : Series)
    (info_riga : dict pyval) : dict pyval :=
  match columns_to_match with
  | [] => info_riga
  | colonna :: rest =>
      match present_cell colonna riga with
      | Some testo =>
          aggiungi_colonne rest riga (set colonna (PyStr testo) info_riga)
      | None => aggiungi_colonne rest riga info_riga
      end
  end.

(** The record of a row without photos. *)
Definition make_info_riga (columns_to_match : list string) (idx : nat)
    (riga : Series) (ean data : string) : dict pyval :=
  aggiungi_colonne columns_to_match riga
    [ ("riga_excel", PyInt (idx + 1)); ("ean", PyStr ean);
      ("data", PyStr data) ].

(** The files a row matches in a store. *)
Definition file_corrispondenti (columns_to_match : list string)
    (riga : Series) (st : Store) : list string :=
  trova_file_corrispondenti (items (indice_file st)) (file_rinominati st)
    (values (estrai_valori columns_to_match riga [])).

(** The body of the loop over [df.iterrows()]: the files renamed for
    the row and the store it leaves. *)
Definition process_row (columns_to_match : list string)
    (photo_folder : string) (idx : nat) (riga : Series) (st : Store)
    : nat * Store :=
  match present_cell EAN_COLUMN riga with
  | None => (0%nat, st)
  | Some testo =>
      let ean := strip testo in
      match file_corrispondenti columns_to_match riga st with
      | [] =>
          let '(data, o) := datetime_now "%Y-%m-%d %H:%M:%S" (os_state st) in
          let info_riga := make_info_riga columns_to_match idx riga ean data in
          (0%nat, append_non_trovato info_riga ean (set_os o st))
      | files =>
          rename_files files ean photo_folder (append_codesi ean st)
      end
  end.

(** The loop over the rows, adding up [renamed]. *)
Fixpoint process_rows (columns_to_match : list string)
    (photo_folder : string) (righe : list (nat * Series)) (renamed : nat)
    (st : Store) : nat * Store :=
  match righe with
  | [] => (renamed, st)
  | (idx, riga) :: rest =>
      let '(n, st) := process_row columns_to_match photo_folder idx riga st in
      process_rows columns_to_match photo_folder rest (renamed + n) st
  end.

(** How a call ends: it returns, or an exception leaves it. *)
Inductive exn := ReadError | SystemExit.

Inductive outcome (A : Type) :=
| Returned (a : A)
| Raised (e : exn).
Global Arguments Returned {A} a.
Global Arguments Raised {A} e.

(** The two column checks that end in [sys.exit(1)]. *)
Definition columns_present (columns_to_match : list string)
    (df : DataFrame) : bool :=
  forallb (λ colonna, bool_decide (colonna ∈ df_columns df)) columns_to_match
  && bool_decide (EAN_COLUMN ∈ df_columns df).

(** [process_sheet]: the sheet is what [pd.read_excel] gives for it,
    [None] when that call raises (as it does when a column named in
    [usecols] is missing). *)
Definition process_sheet (foglio : option DataFrame)
    (columns_to_match : list string) (photo_folder : string) (st : Store)
    : outcome nat * Store :=
  match foglio with
  | None => (Raised ReadError, st)
  | Some df =>
      if columns_present columns_to_match df then
        let '(renamed, st) :=
          process_rows columns_to_match photo_folder (iterrows df) 0 st in
        (Returned renamed, st)
      else (Raised SystemExit, st)
  end.

(** ** [make_report] *)

(** The file written by [make_report]. *)
Record Report := {
  report_file : string;
  report_header : list string;
  report_rows : list (list string);
}.

Inductive report_result :=
| NoReport
| Written (r : Report)
| WriteError.

(** [csv.DictWriter.writerow]: the fields of a record in the order of
    [fieldnames], an absent key giving the empty field; a key that is
    not a field name raises [ValueError] ([None]). *)
Definition writerow (fieldnames : list string) (record : dict pyval)
    : option (list string) :=
  if forallb (λ k, bool_decide (k ∈ fieldnames)) (keys record)
  then Some (map (λ campo, match get campo record with
                           | Some v => str_of_pyval v
                           | None => ""
                           end) fieldnames)
  else None.

Definition make_report (non_trovati : list (dict pyval))
    (reports_folder brand_name : string) (columns_to_match : list string)
    (o : OS) : report_result * OS :=
  let '(datetime_str, o) := datetime_now "%Y-%m-%d_%H-%M-%S" o in
  match non_trovati with
  | [] => (NoReport, o)
  | _ =>
      let fieldnames := ["riga_excel"; "ean"; "data"] ++ columns_to_match in
      match mapM (writerow fieldnames) non_trovati with
      | Some righe =>
          (Written {| report_file :=
                        reports_folder +:+ "/report_ean_non_trovati_"
                          +:+ brand_name +:+ "_" +:+ datetime_str +:+ ".csv";
                      report_header := fieldnames;
                      report_rows := righe |}, o)
      | None => (WriteError, o)
      end
  end.

(** ** [rinomina_foto_in_batch] *)

(** [setup_paths]: photo folder, workbook and reports folder. *)
Definition setup_paths (season brand_name : string)
    : string * string * string :=
  let base_dir := "./" +:+ season in
  (base_dir +:+ "/" +:+ DEFAULT_PHOTOS_SUBDIR +:+ "/" +:+ brand_name +:+ "/",
   base_dir +:+ "/" +:+ DEFAULT_EXCELS_SUBDIR +:+ "/" +:+ brand_name +:+ ".xlsx",
   base_dir +:+ "/" +:+ DEFAULT_REPORTS_SUBDIR).

(** The photos of a listing: names ending in [.jpg] whatever the case. *)
Definition file_jpg (tutti_file : list string) : list string :=
  filter (λ file, endswith (lower file) FILE_EXTENSION = true) tutti_file.

(** [{file: file.lower() for file in file_jpg}] *)
Definition build_index (files : list string) : dict string :=
  foldl (λ d file, set file (lower file) d) [] files.

Definition initial_store (tutti_file : list string) (o : OS) : Store :=
  {| indice_file := build_index (file_jpg tutti_file);
     file_rinominati := ∅; ean_non_trovati := []; codeno := []; codesi := [];
     os_state := o; rename_calls := [] |}.

(** The loop over [excel.sheet_names]. *)
Fixpoint process_sheets (fogli : list (option DataFrame))
    (columns_to_match : list string) (photo_folder : string)
    (conteggio_rinominati : nat) (st : Store) : outcome nat * Store :=
  match fogli with
  | [] => (Returned conteggio_rinominati, st)
  | foglio :: rest =>
      match process_sheet foglio columns_to_match photo_folder st with
      | (Returned n, st) =>
          process_sheets rest columns_to_match photo_folder
            (conteggio_rinominati + n) st
      | (Raised e, st) => (Raised e, st)
      end
  end.

(** How a run ends. *)
Inductive run_result :=
| UnknownBrand
| MissingPhotoFolder (o : OS)
| ExcelError (st : Store)
| Exited (st : Store)
| Completed (conteggio_rinominati : nat) (st : Store)
    (report : report_result).

(** [rinomina_foto_in_batch], given the workbook the way pandas reads
    it: its sheets in declared order, [None] when the file cannot be
    opened. *)
Definition rinomina_foto_in_batch (season brand_name : string)
    (excel : option (list (option DataFrame))) (o : OS) : run_result :=
  let '(photo_folder, excel_file, reports_folder) :=
    setup_paths season brand_name in
  match get brand_name BRAND_COLUMN_MAPPINGS with
  | None => UnknownBrand
  | Some columns_to_match =>
      let o := make_report_dir reports_folder o in
      let o := optimize_images_in_folder photo_folder o in
      match os_listdir photo_folder o with
      | None => MissingPhotoFolder o
      | Some tutti_file =>
          let st := initial_store tutti_file o in
          match excel with
          | None => ExcelError st
          | Some fogli =>
              match process_sheets fogli columns_to_match photo_folder 0 st with
              | (Raised ReadError, st) => ExcelError st
              | (Raised SystemExit, st) => Exited st
              | (Returned conteggio_rinominati, st) =>
                  let '(report, o) :=
                    make_report (ean_non_trovati st) reports_folder brand_name
                      columns_to_match (os_state st) in
                  Completed conteggio_rinominati (set_os o st) report
              end
          end
      end
  end.

(** ** [print_results] *)

(** The two counts [print_results] prints after the elapsed time:
    [conteggio_rinominati] and
    [len(file_jpg) - conteggio_rinominati], on Python integers. *)
Definition print_results (conteggio_rinominati : nat)
    (file_jpg : list string) : Z * Z :=
  (Z.of_nat conteggio_rinominati,
   (Z.of_nat (length file_jpg) - Z.of_nat conteggio_rinominati)%Z).

(** ** [parse_command_line_args] and [main] *)

(** [parse_command_line_args], on [sys.argv]: the season and the brand,
    or [sys.exit(1)] when an argument is missing or the brand is not a
    key of [BRAND_COLUMN_MAPPINGS]. *)
Definition parse_command_line_args (argv : list string)
    : outcome (string * string) :=
  if bool_decide (length argv < 3)%nat then Raised SystemExit
  else
    let season := default "" (argv !! 1%nat) in
    let brand_name := default "" (argv !! 2%nat) in
    if negb (mem brand_name BRAND_COLUMN_MAPPINGS) then Raised SystemExit
    else Returned (season, brand_name).

(** How [main] ends: [sys.exit(1)] leaves it, raised by
    [parse_command_line_args] or by a column check of [process_sheet]
    during the run, with the environment as it is by then; or the run
    returns. *)
Inductive main_result :=
| SysExit (o : OS)
| Finished (r : run_result).

(** [main] *)
Definition main (argv : list string)
    (excel : option (list (option DataFrame))) (o : OS) : main_result :=
  match parse_command_line_args argv with
  | Returned (season, brand_name) =>
      match rinomina_foto_in_batch season brand_name excel o with
      | Exited st => SysExit (os_state st)
      | r => Finished r
      end
  | Raised _ => SysExit o
  end.

End Script.

(** ** A concrete platform

    A small file system used to run the script on examples: the paths
    of the files it holds, the folders it has, and the paths that
    cannot be renamed (say, for lack of permission).  [rename] follows
    POSIX: the source must exist, an existing target is replaced, and
    renaming a file to its own path leaves it alone. *)

Module Disk.

Record disk := {
  folders : list string;
  files : list string;
  locked : list string;
}.

Definition rename (src dst : string) (d : disk) : bool * disk :=
  if bool_decide (src ∈ files d) && negb (bool_decide (src ∈ locked d))
  then (true, {| folders := folders d;
                 files := (λ p, if decide (p = src) then dst else p)
                            <$> filter (λ p, p = src ∨ p ≠ dst) (files d);
                 locked := locked d |})
  else (false, d).

(** The name of the file of [folder] that [path] designates, if any. *)
Definition entry_of (folder path : string) : option string :=
  let nome := slice_from (String.length folder) path in
  if startswith path folder && truthy nome
     && negb (str_in (String sep EmptyString) nome)
  then Some nome else None.

Definition listdir (folder : string) (d : disk) : option (list string) :=
  if bool_decide (folder ∈ folders d)
  then Some (omap (entry_of folder) (files d))
  else None.

(** A clock that stands still. *)
Definition now (format : string) (d : disk) : string * disk :=
  (if decide (format = "%Y-%m-%d %H:%M:%S") then "2025-03-01 10:00:00"
   else "2025-03-01_10-00-00", d).

Definition makedirs (folder : string) (d : disk) : disk :=
  if bool_decide (folder ∈ folders d) then d
  else {| folders := folders d ++ [folder]; files := files d;
          locked := locked d |}.

#[export] Instance platform : Platform := {|
  OS := disk;
  os_rename := rename;
  os_listdir := listdir;
  datetime_now := now;
  make_report_dir := makedirs;
  optimize_images_in_folder := λ _ d, d;
|}.

End Disk.

(** ** Vocabulary of the statements *)

(** [v] occurs in [s] as a contiguous substring. *)
Definition substring_of (v s : string) : Prop :=
  ∃ pre post, s = pre +:+ v +:+ post.

(** [c] occurs in [s]. *)
Fixpoint has_char (c : ascii) (s : string) : bool :=
  match s with
  | EmptyString => false
  | String a s' => Ascii.eqb a c || has_char c s'
  end.

(** The index holds, next to every name, its lowered form. *)
Definition lower_cached (d : dict string) : Prop :=
  ∀ nome_file nome_file_lower,
    (nome_file, nome_file_lower) ∈ d → nome_file_lower = lower nome_file.

(** A call of [os.rename] that returned. *)
Definition succeeded (c : RenameCall) : Prop := call_ok c = true.

#[global] Instance succeeded_dec (c : RenameCall) : Decision (succeeded c) :=
  decide (call_ok c = true).

(** The files a sequence of calls renamed. *)
Definition renamed_files (calls : list RenameCall) : list string :=
  call_file <$> filter succeeded calls.

(** Removal of several keys. *)
Definition without_all {V : Type} (ks : list string) (d : dict V) : dict V :=
  foldl (λ d k, without k d) d ks.

(** The rows that have an EAN. *)
Definition valid_rows (righe : list (nat * Series)) : list (nat * Series) :=
  filter (λ r, is_Some (present_cell EAN_COLUMN r.2)) righe.

(** The keys the script itself puts in a report record. *)
Definition reserved_keys : list string := ["riga_excel"; "ean"; "data"].

(** The fields [csv.DictWriter] writes for a record. *)
Definition fields_of (fieldnames : list string) (record : dict pyval)
    : list string :=
  map (λ campo, match get campo record with
                | Some v => str_of_pyval v
                | None => ""
                end) fieldnames.

Section Vocabulary.
Context `{Platform}.

(** The calls made between two stores. *)
Definition new_calls (st st' : Store) : list RenameCall :=
  drop (length (rename_calls st)) (rename_calls st').

(** [os.rename] called on a sequence of (source, target) paths, one
    call after the other: what each call answered, in order, and the
    environment after the last call. *)
Fixpoint os_renames (percorsi : list (string * string)) (o : OS)
    : list bool * OS :=
  match percorsi with
  | [] => ([], o)
  | (vecchio_percorso, nuovo_percorso) :: rest =>
      let '(ok, o) := os_rename vecchio_percorso nuovo_percorso o in
      let '(esiti, o) := os_renames rest o in
      (ok :: esiti, o)
  end.

(** The stores in which the rows of a sequence are processed, one per
    row, from the store the sequence starts in. *)
Fixpoint stores_before (columns_to_match : list string)
    (photo_folder : string) (righe : list (nat * Series)) (st : Store)
    : list Store :=
  match righe with
  | [] => []
  | (idx, riga) :: rest =>
      st :: stores_before columns_to_match photo_folder rest
              (process_row columns_to_match photo_folder idx riga st).2
  end.

(** The files a row renames when it is processed in [st]. *)
Definition renamed_by_row (columns_to_match : list string)
    (photo_folder : string) (r : nat * Series) (st : Store) : list string :=
  renamed_files
    (new_calls st (process_row columns_to_match photo_folder r.1 r.2 st).2).

(** A row with an EAN that finds no file in [st]. *)
Definition unmatched_in (columns_to_match : list string) (riga : Series)
    (st : Store) : bool :=
  match present_cell EAN_COLUMN riga with
  | Some _ => bool_decide (file_corrispondenti columns_to_match riga st = [])
  | None => false
  end.

(** The rows of a sequence that find no file at the moment they are
    processed, each with the store it was processed in. *)
Definition unmatched_rows (columns_to_match : list string)
    (photo_folder : string) (righe : list (nat * Series)) (st : Store)
    : list (nat * Series * Store) :=
  filter (λ rs, unmatched_in columns_to_match rs.1.2 rs.2 = true)
    (zip righe (stores_before columns_to_match photo_folder righe st)).

(** The rows a run goes through: those of the sheets that come before
    the first sheet that cannot be read or lacks a column. *)
Definition sheet_ok (columns_to_match : list string)
    (foglio : option DataFrame) : bool :=
  match foglio with
  | Some df => columns_present columns_to_match df
  | None => false
  end.

Fixpoint run_rows (columns_to_match : list string)
    (fogli : list (option DataFrame)) : list (nat * Series) :=
  match fogli with
  | Some df :: rest =>
      if columns_present columns_to_match df
      then iterrows df ++ run_rows columns_to_match rest
      else []
  | _ => []
  end.

(** Stores only lose index entries and only gain renamed files. *)
Definition later (st st' : Store) : Prop :=
  file_rinominati st ⊆ file_rinominati st' ∧
  ∀ k, k ∈ keys (indice_file st') → k ∈ keys (indice_file st).

(** The record the script writes for row [idx] when it finds no file
    for it in [st]. *)
Definition info_of_row (columns_to_match : list string) (idx : nat)
    (riga : Series) (st : Store) : dict pyval :=
  make_info_riga columns_to_match idx riga
    (strip (default "" (present_cell EAN_COLUMN riga)))
    (datetime_now "%Y-%m-%d %H:%M:%S" (os_state st)).1.

End Vocabulary.

Section RunVocabulary.
Context `{Platform}.

(** What the stores of a run have in common: the index has each name
    once, next to its lowered form; no name of the index is in the
    renamed set; and the renamed set holds the files of the successful
    calls of [os.rename], each of which was renamed once. *)
Definition run_invariant (st : Store) : Prop :=
  NoDup (keys (indice_file st))
  ∧ lower_cached (indice_file st)
  ∧ (∀ f, f ∈ keys (indice_file st) → f ∉ file_rinominati st)
  ∧ NoDup (renamed_files (rename_calls st))
  ∧ (∀ f, f ∈ file_rinominati st ↔ f ∈ renamed_files (rename_calls st)).

End RunVocabulary.

Section ReportVocabulary.
Context `{Platform}.


End ReportVocabulary.

(** ** Example data *)

Module Example.
Import Disk.

Definition folder : string := "./pe25/photoes/guess/".

(** Two photos of a red shoe and a file that is no photo. *)
Definition red_shoes : disk :=
  {| folders := [folder];
     files := [folder +:+ "red-shoe.jpg"; folder +:+ "red-shoe-2.jpg";
               folder +:+ "notes.txt"];
     locked := [] |}.

(** The same folder when the first photo cannot be renamed. *)
Definition red_shoes_locked : disk :=
  {| folders := [folder];
     files := files red_shoes;
     locked := [folder +:+ "red-shoe.jpg"] |}.

Definition guess_columns : list string := ["Model"; "Part"; "Color"].

Definition riga (color ean : string) : Series :=
  [("Model", None); ("Part", None); ("Color", Some color); ("EAN", Some ean)].

Definition riga_A : Series := riga "red" "111".
Definition riga_B : Series := riga "red" "222".

Definition foglio (righe : list Series) : option DataFrame :=
  Some {| df_columns := ["Model"; "Part"; "Color"; "EAN"]; df_rows := righe |}.

(** What a run leaves behind: the count, [codesi], [codeno], the calls
    of [os.rename] and the names still in the index. *)
Definition esito (r : run_result)
    : option (nat * list string * list string * list RenameCall * list string) :=
  match r with
  | Completed n st _ =>
      Some (n, codesi st, codeno st, rename_calls st, keys (indice_file st))
  | _ => None
  end.

Definition call (vecchio nuovo : string) (ok : bool) : RenameCall :=
  {| call_file := vecchio; call_target := nuovo; call_ok := ok |}.

(** The script on the example platform. *)
Definition run (excel : option (list (option DataFrame))) (d : disk)
    : run_result :=
  @rinomina_foto_in_batch platform "pe25" "guess" excel d.

Definition store_of (tutti_file : list string) : @Store platform :=
  @initial_store platform tutti_file red_shoes.

Definition st0 : @Store platform :=
  store_of ["red-shoe.jpg"; "red-shoe-2.jpg"; "notes.txt"].

(** Three photos for the examples of substring matching. *)
Definition blue_photos : @Store Disk.platform :=
  store_of ["blueskirt.jpg"; "SKY-BLUE.JPG"; "blu.jpg"].

End Example.

Import Example.

(** Further example data. *)

(** A row with an EAN whose attribute cells are missing or blank. *)
Definition riga_vuota : Series :=
  [("Model", None); ("Part", Some "   "); ("Color", None); ("EAN", Some "9")].

(** A sheet with the single row A. *)
Definition df_A : DataFrame :=
  {| df_columns := ["Model"; "Part"; "Color"; "EAN"]; df_rows := [riga_A] |}.

(** A row whose EAN cell is missing. *)
Definition riga_senza_ean : Series :=
  [("Model", None); ("Part", None); ("Color", Some "red"); ("EAN", None)].



(** The store a run starts in when the first photo cannot be renamed. *)
Definition st_locked : @Store Disk.platform :=
  @initial_store Disk.platform
    ["red-shoe.jpg"; "red-shoe-2.jpg"; "notes.txt"] red_shoes_locked.

(** A store whose index lacks a photo that is in the folder. *)
Definition st_stale : @Store Disk.platform := store_of ["red-shoe.jpg"].

(** * Properties of the built-ins *)

Lemma str_app_nil_l (s : string) : "" +:+ s = s.
Proof. reflexivity. Qed.

Lemma str_app_cons (c : ascii) (s t : string) :
  String c s +:+ t = String c (s +:+ t).
Proof. reflexivity. Qed.

Lemma str_app_nil_r (s : string) : s +:+ "" = s.
Proof. induction s as [|c s IH]; [done|]. by rewrite str_app_cons, IH. Qed.

Lemma str_app_assoc (s t u : string) : (s +:+ t) +:+ u = s +:+ t +:+ u.
Proof. induction s as [|c s IH]; [done|]. by rewrite !str_app_cons, IH. Qed.

(** [startswith] decides "is a prefix of". *)
Lemma startswith_spec (s p : string) :
  startswith s p = true ↔ ∃ t, s = p +:+ t.
Proof.
  revert s. induction p as [|a p IH]; intros s; simpl.
  - split; [intros _; by exists s | done].
  - destruct s as [|b s].
    + split; [done | intros [t Ht]; discriminate].
    + rewrite andb_true_iff, Ascii.eqb_eq, IH. split.
      * intros [-> [t ->]]. by exists t.
      * intros [t Ht]. rewrite str_app_cons in Ht. injection Ht as -> ->. eauto.
Qed.

(** [str_in] decides "occurs as a contiguous substring of". *)
Lemma str_in_spec (v s : string) : str_in v s = true ↔ substring_of v s.
Proof.
  unfold substring_of. induction s as [|c s IH]; simpl.
  - rewrite orb_false_r, startswith_spec. split.
    + intros [t Ht]. by exists "", t.
    + intros ([|??] & post & Hs); [by exists post | discriminate].
  - rewrite orb_true_iff, startswith_spec, IH. split.
    + intros [[t Ht] | (pre & post & ->)].
      * by exists "", t.
      * by exists (String c pre), post.
    + intros ([|c' pre] & post & Hs).
      * left. by exists post.
      * right. rewrite str_app_cons in Hs. injection Hs as -> ->. eauto.
Qed.

Lemma truthy_spec (s : string) : truthy s = true ↔ s ≠ "".
Proof. by destruct s. Qed.

(** * Properties of dictionaries *)

Section DictFacts.
Context {V : Type}.
Implicit Types (d : dict V) (k : string) (v : V).

Lemma elem_of_keys k d : k ∈ keys d ↔ ∃ v, (k, v) ∈ d.
Proof.
  unfold keys. rewrite list_elem_of_fmap. split.
  - intros ([k' v] & -> & Hin). eauto.
  - intros [v Hin]. by exists (k, v).
Qed.

Lemma get_None k d : get k d = None ↔ k ∉ keys d.
Proof.
  induction d as [|[k' v] d IH]; simpl.
  - split; [intros _; apply not_elem_of_nil | done].
  - rewrite not_elem_of_cons. case_decide; [naive_solver | by rewrite IH; naive_solver].
Qed.

Lemma get_Some_elem_of k v d : get k d = Some v → (k, v) ∈ d.
Proof.
  induction d as [|[k' v'] d IH]; simpl; [done|].
  case_decide; [intros [= ->]; subst; left | right; auto].
Qed.

Lemma mem_spec k d : mem k d = true ↔ k ∈ keys d.
Proof.
  unfold mem. destruct (get k d) eqn:E.
  - split; [intros _ | done]. apply elem_of_keys. eauto using get_Some_elem_of.
  - apply get_None in E. naive_solver.
Qed.

Lemma elem_of_without k d (kv : string * V) :
  kv ∈ without k d ↔ kv ∈ d ∧ kv.1 ≠ k.
Proof. unfold without. rewrite list_elem_of_filter. naive_solver. Qed.

Lemma keys_without k k' d : k' ∈ keys (without k d) ↔ k' ∈ keys d ∧ k' ≠ k.
Proof.
  rewrite !elem_of_keys. setoid_rewrite elem_of_without. naive_solver.
Qed.

Lemma without_absent k d : k ∉ keys d → without k d = d.
Proof.
  intros Hk. unfold without. induction d as [|[k' v] d IH]; [done|].
  apply not_elem_of_cons in Hk as [Hne Hk].
  rewrite filter_cons. rewrite decide_True by (simpl in *; congruence).
  f_equal. auto.
Qed.

Lemma length_without k d : length (without k d) ≤ length d.
Proof. apply length_filter. Qed.

(** [del] raises exactly on absent keys, and otherwise removes the
    key. *)
Lemma del_None k d : del k d = None ↔ k ∉ keys d.
Proof.
  unfold del. rewrite <- mem_spec. destruct (mem k d); naive_solver.
Qed.

Lemma del_Some k d d' : del k d = Some d' ↔ k ∈ keys d ∧ d' = without k d.
Proof.
  unfold del. rewrite <- mem_spec. destruct (mem k d); naive_solver.
Qed.

Lemma get_set_eq k v d : get k (set k v d) = Some v.
Proof.
  induction d as [|[k' v'] d IH]; simpl.
  - by rewrite decide_True.
  - case_decide; simpl; [by rewrite decide_True | by rewrite decide_False].
Qed.

Lemma get_set_ne k k' v d : k ≠ k' → get k' (set k v d) = get k' d.
Proof.
  intros Hne. induction d as [|[k0 v0] d IH]; simpl.
  - by rewrite decide_False.
  - case_decide; simpl; subst.
    + by rewrite !decide_False.
    + case_decide; auto.
Qed.

Lemma keys_set k k' v d : k' ∈ keys (set k v d) ↔ k' = k ∨ k' ∈ keys d.
Proof.
  induction d as [|[k0 v0] d IH]; simpl.
  - rewrite list_elem_of_singleton. unfold keys; simpl. set_solver.
  - case_decide; subst; unfold keys in *; simpl; rewrite !elem_of_cons.
    + naive_solver.
    + rewrite IH. naive_solver.
Qed.

Lemma elem_of_set k v d (kv : string * V) :
  kv ∈ set k v d → kv = (k, v) ∨ kv ∈ d.
Proof.
  induction d as [|[k0 v0] d IH]; simpl.
  - rewrite list_elem_of_singleton. auto.
  - case_decide; subst; rewrite !elem_of_cons; naive_solver.
Qed.

Lemma NoDup_keys_set k v d : NoDup (keys d) → NoDup (keys (set k v d)).
Proof.
  induction d as [|[k0 v0] d IH]; simpl; intros Hnd.
  - unfold keys; simpl. apply NoDup_singleton.
  - case_decide; subst; [done|]. unfold keys in *; simpl in *.
    apply NoDup_cons in Hnd as [Hnotin Hnd]. apply NoDup_cons. split; [|auto].
    intros Hin. apply (keys_set k k0 v d) in Hin. naive_solver.
Qed.

Lemma NoDup_keys_without k d : NoDup (keys d) → NoDup (keys (without k d)).
Proof.
  unfold keys, without. induction d as [|[k0 v0] d IH]; [done|].
  simpl. intros [Hnotin Hnd]%NoDup_cons.
  destruct (decide (k0 = k)) as [->|Hne].
  - rewrite filter_cons, decide_False by (simpl; auto). auto.
  - rewrite filter_cons, decide_True by done. simpl.
    apply NoDup_cons. split; [|auto].
    intros Hin. apply Hnotin. apply (keys_without k k0 d) in Hin. apply Hin.
Qed.

End DictFacts.

(** * The matcher *)

Lemma tutti_presenti_spec (valori : list string) (nome_file_lower : string) :
  tutti_presenti valori nome_file_lower = true ↔
  ∀ valore, valore ∈ valori → valore ≠ "" →
    substring_of valore nome_file_lower.
Proof.
  induction valori as [|v valori IH]; simpl.
  - split; [|done]. intros _ valore Hin. by apply elem_of_nil in Hin.
  - destruct (truthy v && negb (str_in v nome_file_lower)) eqn:E.
    + split; [done|]. intros Hall. exfalso.
      apply andb_true_iff in E as [Hv Hnot%negb_true_iff].
      apply truthy_spec in Hv.
      specialize (Hall v (list_elem_of_here _ _) Hv).
      apply str_in_spec in Hall. congruence.
    + rewrite IH. split.
      * intros Hall valore [->|Hin]%elem_of_cons Hne; [|by apply Hall].
        apply str_in_spec. apply andb_false_iff in E as [E|E].
        -- apply truthy_spec in Hne. congruence.
        -- by apply negb_false_iff in E.
      * intros Hall valore Hin. apply Hall. by right.
Qed.

Lemma elem_of_trova_file_corrispondenti (voci : list (string * string))
    (rinominati : gset string) (valori : list string) (nome_file : string) :
  nome_file ∈ trova_file_corrispondenti voci rinominati valori ↔
  ∃ nome_file_lower,
    (nome_file, nome_file_lower) ∈ voci ∧ (nome_file ∉ rinominati) ∧
    tutti_presenti valori nome_file_lower = true.
Proof.
  induction voci as [|[f low] voci IH]; simpl.
  - split; [by intros ?%elem_of_nil | by intros (? & ?%elem_of_nil & _)].
  - setoid_rewrite elem_of_cons. case_bool_decide as Hren.
    + rewrite IH. split; [naive_solver|].
      intros (l & [[= -> ->]|Hin] & Hnot & Hall); [done | eauto].
    + destruct (tutti_presenti valori low) eqn:Hlow.
      * rewrite elem_of_cons, IH. split.
        -- intros [->|(l & ? & ? & ?)]; eauto 6.
        -- intros (l & [[= -> ->]|Hin] & Hnot & Hall); eauto 6.
      * rewrite IH. split; [naive_solver|].
        intros (l & [[= -> ->]|Hin] & Hnot & Hall); [congruence | eauto].
Qed.

(** The matches are listed in the order of the index. *)
Lemma trova_file_corrispondenti_sublist (voci : list (string * string))
    (rinominati : gset string) (valori : list string) :
  sublist (trova_file_corrispondenti voci rinominati valori) voci.*1.
Proof.
  induction voci as [|[f low] voci IH]; simpl; [done|].
  case_bool_decide; [by apply sublist_cons|].
  destruct (tutti_presenti valori low); [by apply sublist_skip | by apply sublist_cons].
Qed.

Lemma elem_of_set_same {V : Type} (k : string) (v : V) (d : dict V)
    (kv : string * V) :
  (∀ v', (k, v') ∈ d → v' = v) →
  kv ∈ set k v d ↔ kv = (k, v) ∨ kv ∈ d.
Proof.
  induction d as [|[k0 v0] d IH]; simpl; intros Hsame.
  - rewrite list_elem_of_singleton, elem_of_nil. tauto.
  - case_decide as Hk; subst; rewrite !elem_of_cons.
    + rewrite (Hsame v0) by left. tauto.
    + rewrite IH by (intros v' Hv'; apply Hsame; by right). tauto.
Qed.

(** The values a row is matched with: the lowered, stripped text of its
    present attribute cells. *)
Lemma elem_of_estrai_valori (cols : list string) (riga : Series)
    (kv : string * string) :
  kv ∈ estrai_valori cols riga [] ↔
  kv.1 ∈ cols ∧
  ∃ testo, present_cell kv.1 riga = Some testo ∧ kv.2 = strip (lower testo).
Proof.
  set (from_cell := λ kv : string * string,
    ∃ testo, present_cell kv.1 riga = Some testo ∧ kv.2 = strip (lower testo)).
  assert (∀ valori : dict string,
    (∀ e, e ∈ valori → from_cell e) →
    kv ∈ estrai_valori cols riga valori
    ↔ kv ∈ valori ∨ (kv.1 ∈ cols ∧ from_cell kv)) as Hgen.
  { induction cols as [|c cols IH]; intros valori Hinv; simpl.
    - rewrite elem_of_nil. tauto.
    - rewrite elem_of_cons.
      destruct (present_cell c riga) as [t|] eqn:Hc.
      + rewrite IH.
        * rewrite elem_of_set_same.
          -- split.
             ++ intros [[->|Hin]|[Hin Hfrom]]; [|tauto..].
                right. split; [by left|]. exists t. done.
             ++ intros [Hin|[[Heq|Hin] Hfrom]]; [tauto| |tauto].
                left. left. destruct Hfrom as (t' & Ht' & Hv).
                destruct kv as [k v]. simpl in *. subst. congruence.
          -- intros v' Hv'. destruct (Hinv _ Hv') as (t' & Ht' & Hv).
             simpl in *. congruence.
        * intros e [->|He]%elem_of_set; [|by apply Hinv].
          exists t. done.
      + rewrite IH by done. split; [tauto|].
        intros [Hin|[[Heq|Hin] Hfrom]]; [tauto| |tauto].
        destruct Hfrom as (t & Ht & _). congruence. }
  rewrite Hgen by (intros e He; by apply elem_of_nil in He).
  rewrite elem_of_nil. tauto.
Qed.

Section Matcher.
Context `{Platform}.

(** A row matches the remaining files whose lowered name contains the
    lowered, stripped text of each of its present attribute cells,
    blank cells apart. *)
Lemma elem_of_file_corrispondenti (cols : list string) (riga : Series)
    (st : Store) (nome_file : string) :
  lower_cached (indice_file st) →
  nome_file ∈ file_corrispondenti cols riga st ↔
  nome_file ∈ keys (indice_file st) ∧ (nome_file ∉ file_rinominati st) ∧
  ∀ colonna testo,
    colonna ∈ cols → present_cell colonna riga = Some testo →
    strip (lower testo) ≠ "" →
    substring_of (strip (lower testo)) (lower nome_file).
Proof.
  intros Hlow. unfold file_corrispondenti.
  rewrite elem_of_trova_file_corrispondenti, elem_of_keys. unfold items.
  split.
  - intros (low & Hin & Hnot & Hall). pose proof (Hlow _ _ Hin) as ->.
    rewrite tutti_presenti_spec in Hall. split_and!; [eauto | done |].
    intros colonna testo Hcol Hcell Hne. apply Hall; [|done].
    unfold values. apply list_elem_of_fmap.
    exists (colonna, strip (lower testo)). split; [done|].
    apply elem_of_estrai_valori. eauto.
  - intros ([low Hin] & Hnot & Hall). exists low.
    pose proof (Hlow _ _ Hin) as ->. split_and!; [done..|].
    apply tutti_presenti_spec. intros valore Hval Hne.
    unfold values in Hval.
    apply list_elem_of_fmap in Hval as ([c v] & -> & Hkv).
    apply elem_of_estrai_valori in Hkv as (Hcol & testo & Hcell & Hv).
    simpl in *. subst v. eauto.
Qed.

(** C1.  In a store whose index caches the lowered names, the matcher
    selects a file exactly when the file is a remaining candidate (a
    key of the index that is not in the renamed set) and every
    non-empty value of the mapping occurs as a contiguous substring of
    the lowered file name; the comparison is literal, character by
    character.  When the mapping has no non-empty value, every
    remaining candidate is selected. *)
Theorem matcher_selects_iff_all_values_occur (valori : dict string)
    (st : Store) (nome_file : string) :
  lower_cached (indice_file st) →
  (nome_file ∈ trova_file_corrispondenti (items (indice_file st))
                 (file_rinominati st) (values valori)
   ↔ nome_file ∈ keys (indice_file st) ∧ (nome_file ∉ file_rinominati st) ∧
     ∀ valore, valore ∈ values valori → valore ≠ "" →
       substring_of valore (lower nome_file))
  ∧ ((∀ valore, valore ∈ values valori → valore = "") →
     nome_file ∈ keys (indice_file st) → nome_file ∉ file_rinominati st →
     nome_file ∈ trova_file_corrispondenti (items (indice_file st))
                  (file_rinominati st) (values valori)).
Proof.
  intros Hlow.
  assert (nome_file ∈ trova_file_corrispondenti (items (indice_file st))
                 (file_rinominati st) (values valori)
   ↔ nome_file ∈ keys (indice_file st) ∧ (nome_file ∉ file_rinominati st) ∧
     ∀ valore, valore ∈ values valori → valore ≠ "" →
       substring_of valore (lower nome_file)) as Hiff.
  { rewrite elem_of_trova_file_corrispondenti, elem_of_keys. unfold items.
    split.
    - intros (low & Hin & Hnot & Hall). pose proof (Hlow _ _ Hin) as ->.
      rewrite tutti_presenti_spec in Hall. eauto.
    - intros ([low Hin] & Hnot & Hall). exists low.
      pose proof (Hlow _ _ Hin) as ->.
      by rewrite tutti_presenti_spec. }
  split; [exact Hiff|].
  intros Hempty Hkey Hnot. apply Hiff. repeat split; [done..|].
  intros valore Hin Hne. by apply Hempty in Hin.
Qed.

End Matcher.

Section RenameFacts.
Context `{Platform}.

Lemma elem_of_without_all {V : Type} (ks : list string) (d : dict V)
    (kv : string * V) :
  kv ∈ without_all ks d ↔ kv ∈ d ∧ kv.1 ∉ ks.
Proof.
  unfold without_all. revert d. induction ks as [|k ks IH]; intros d; simpl.
  - split; [intros ?; split; [done | apply not_elem_of_nil] | by intros [? _]].
  - rewrite IH, elem_of_without, not_elem_of_cons. tauto.
Qed.

Lemma keys_without_all {V : Type} (ks : list string) (d : dict V) (k : string) :
  k ∈ keys (without_all ks d) ↔ k ∈ keys d ∧ k ∉ ks.
Proof.
  rewrite !elem_of_keys. setoid_rewrite elem_of_without_all. simpl.
  split; [intros (v & ? & ?); eauto | intros [[v ?] ?]; eauto].
Qed.

Lemma without_all_absent {V : Type} (ks : list string) (d : dict V) :
  (∀ k, k ∈ ks → k ∉ keys d) → without_all ks d = d.
Proof.
  unfold without_all. revert d. induction ks as [|k ks IH]; intros d Hks; [done|].
  simpl. rewrite without_absent by (apply Hks; left). apply IH.
  intros k' Hk'. apply Hks. by right.
Qed.

(** What one turn of the loop of [rename_files] does, by outcome of
    [os.rename]. *)
Lemma rename_one_spec (i : nat) (vecchio_nome ean photo_folder : string)
    (n : nat) (st : Store) :
  let ok_o := os_rename (path_join photo_folder vecchio_nome)
                (path_join photo_folder (nuovo_nome ean i vecchio_nome))
                (os_state st) in
  let call := {| call_file := vecchio_nome;
                 call_target := nuovo_nome ean i vecchio_nome;
                 call_ok := ok_o.1 |} in
  rename_one i vecchio_nome ean photo_folder n st =
  (if ok_o.1 then S n else n,
   {| indice_file := if ok_o.1 then without vecchio_nome (indice_file st)
                     else indice_file st;
      file_rinominati := if ok_o.1 then file_rinominati st ∪ {[vecchio_nome]}
                         else file_rinominati st;
      ean_non_trovati := ean_non_trovati st; codeno := codeno st;
      codesi := codesi st; os_state := ok_o.2;
      rename_calls := rename_calls st ++ [call] |}).
Proof.
  unfold rename_one. simpl.
  destruct (os_rename _ _ _) as [[] o]; simpl; [|done].
  destruct (del vecchio_nome (indice_file st)) as [d|] eqn:Hdel.
  - apply del_Some in Hdel as [_ ->]. done.
  - apply del_None in Hdel. by rewrite without_absent.
Qed.

(** The loop of [rename_files], summarised by the calls it makes. *)
Lemma rename_loop_spec (files : list string) (ean photo_folder : string) :
  ∀ (i n : nat) (st : Store),
  ∃ calls,
    let r := rename_loop i files ean photo_folder n st in
    rename_calls r.2 = rename_calls st ++ calls ∧
    call_file <$> calls = files ∧
    call_target <$> calls = imap (λ j f, nuovo_nome ean (i + j) f) files ∧
    r.1 = (n + length (filter succeeded calls))%nat ∧
    file_rinominati r.2
      = file_rinominati st ∪ list_to_set (renamed_files calls) ∧
    indice_file r.2 = without_all (renamed_files calls) (indice_file st) ∧
    ean_non_trovati r.2 = ean_non_trovati st ∧
    codeno r.2 = codeno st ∧ codesi r.2 = codesi st.
Proof.
  induction files as [|f files IH]; intros i n st; simpl.
  - exists []. rewrite app_nil_r. unfold renamed_files; simpl.
    repeat split; try done; try lia; set_solver.
  - rewrite rename_one_spec. simpl.
    destruct (os_rename _ _ _) as [ok o] eqn:Hos; simpl.
    match goal with |- context [rename_loop _ _ _ _ ?n' ?st'] =>
      destruct (IH (S i) n' st')
        as (calls & Hc & Hf & Ht & Hn & Hr & Hi & He & Hno & Hsi) end.
    simpl in *.
    exists ({| call_file := f; call_target := nuovo_nome ean i f;
               call_ok := ok |} :: calls).
    assert (renamed_files
              ({| call_file := f; call_target := nuovo_nome ean i f;
                  call_ok := ok |} :: calls)
            = (if ok then [f] else []) ++ renamed_files calls) as Hren.
    { unfold renamed_files. rewrite filter_cons. destruct ok.
      - by rewrite decide_True.
      - by rewrite decide_False by (unfold succeeded; simpl; congruence). }
    rewrite Hren. split_and!.
    + by rewrite Hc, <- app_assoc.
    + by rewrite fmap_cons, Hf.
    + rewrite fmap_cons, Ht. simpl. f_equal; [f_equal; lia|].
      apply imap_ext. intros j x _. simpl. f_equal. lia.
    + rewrite Hn, filter_cons. destruct ok.
      * rewrite decide_True by done. simpl. lia.
      * by rewrite decide_False by (unfold succeeded; simpl; congruence).
    + rewrite Hr. destruct ok; simpl; set_solver.
    + rewrite Hi. by destruct ok.
    + by rewrite He.
    + by rewrite Hno.
    + by rewrite Hsi.
Qed.

End RenameFacts.

Section RenameFiles.
Context `{Platform}.

Lemma new_calls_app (st st' : Store) (calls : list RenameCall) :
  rename_calls st' = rename_calls st ++ calls → new_calls st st' = calls.
Proof. intros Heq. unfold new_calls. rewrite Heq. apply drop_app_length. Qed.

(** [rename_files] in terms of the calls it makes. *)
Lemma rename_files_spec (files : list string) (ean photo_folder : string)
    (st : Store) :
  let r := rename_files files ean photo_folder st in
  let calls := new_calls st r.2 in
  rename_calls r.2 = rename_calls st ++ calls ∧
  call_file <$> calls = files ∧
  call_target <$> calls = imap (nuovo_nome ean) files ∧
  r.1 = length (filter succeeded calls) ∧
  file_rinominati r.2 = file_rinominati st ∪ list_to_set (renamed_files calls) ∧
  indice_file r.2 = without_all (renamed_files calls) (indice_file st) ∧
  ean_non_trovati r.2 = ean_non_trovati st ∧
  codeno r.2 = codeno st ∧ codesi r.2 = codesi st.
Proof.
  unfold rename_files.
  destruct (rename_loop_spec files ean photo_folder 0 0 st)
    as (calls & Hc & Hrest).
  simpl in *. rewrite (new_calls_app _ _ _ Hc). split; [done|].
  exact Hrest.
Qed.

Lemma renamed_files_subseteq (calls : list RenameCall) :
  renamed_files calls ⊆ call_file <$> calls.
Proof.
  unfold renamed_files. intros f (c & -> & Hin%list_elem_of_filter)%list_elem_of_fmap.
  apply list_elem_of_fmap. exists c. split; [done | apply Hin].
Qed.

(** C3, amended.  An entry leaves the index only when its rename
    succeeds: after [rename_files] a name is in the index exactly when
    it was there before and no call renamed it, and it is in the
    renamed set exactly when it was there before or a call renamed it.
    A file whose rename failed is therefore matched by a later row
    exactly as it would have been matched before. *)
Theorem entry_leaves_index_only_when_renamed (files : list string)
    (ean photo_folder : string) (st : Store) (nome_file : string) :
  let r := rename_files files ean photo_folder st in
  let renamed := renamed_files (new_calls st r.2) in
  (nome_file ∈ keys (indice_file r.2)
     ↔ nome_file ∈ keys (indice_file st) ∧ nome_file ∉ renamed)
  ∧ (nome_file ∈ file_rinominati r.2
     ↔ nome_file ∈ file_rinominati st ∨ nome_file ∈ renamed)
  ∧ (nome_file ∉ renamed →
     ∀ valori,
       nome_file ∈ trova_file_corrispondenti (items (indice_file r.2))
                    (file_rinominati r.2) valori
       ↔ nome_file ∈ trova_file_corrispondenti (items (indice_file st))
                      (file_rinominati st) valori).
Proof.
  intros r renamed.
  destruct (rename_files_spec files ean photo_folder st)
    as (_ & _ & _ & _ & Hr & Hi & _).
  fold r in Hr, Hi. fold renamed in Hr, Hi.
  split_and!.
  - rewrite Hi. apply keys_without_all.
  - rewrite Hr. rewrite elem_of_union, elem_of_list_to_set. done.
  - intros Hnot valori. rewrite !elem_of_trova_file_corrispondenti.
    unfold items. rewrite Hi, Hr. setoid_rewrite elem_of_without_all.
    setoid_rewrite not_elem_of_union. setoid_rewrite elem_of_list_to_set.
    simpl. naive_solver.
Qed.

End RenameFiles.

Section ProcessRow.
Context `{Platform}.
Implicit Types (st : Store) (riga : Series).

Lemma process_row_skip cols folder idx riga st :
  present_cell EAN_COLUMN riga = None →
  process_row cols folder idx riga st = (0%nat, st).
Proof. unfold process_row. by intros ->. Qed.

Lemma process_row_not_found cols folder idx riga st testo :
  present_cell EAN_COLUMN riga = Some testo →
  file_corrispondenti cols riga st = [] →
  process_row cols folder idx riga st =
  (0%nat,
   append_non_trovato
     (make_info_riga cols idx riga (strip testo)
        (datetime_now "%Y-%m-%d %H:%M:%S" (os_state st)).1)
     (strip testo)
     (set_os (datetime_now "%Y-%m-%d %H:%M:%S" (os_state st)).2 st)).
Proof.
  unfold process_row. intros -> ->. by destruct (datetime_now _ _).
Qed.

Lemma process_row_found cols folder idx riga st testo :
  present_cell EAN_COLUMN riga = Some testo →
  file_corrispondenti cols riga st ≠ [] →
  process_row cols folder idx riga st =
  rename_files (file_corrispondenti cols riga st) (strip testo) folder
    (append_codesi (strip testo) st).
Proof.
  unfold process_row. intros -> Hne.
  by destruct (file_corrispondenti cols riga st).
Qed.

(** What a row does to the index, the renamed set and the history of
    calls. *)
Lemma process_row_spec cols folder idx riga st :
  let st' := (process_row cols folder idx riga st).2 in
  let calls := new_calls st st' in
  rename_calls st' = rename_calls st ++ calls ∧
  call_file <$> calls ⊆ file_corrispondenti cols riga st ∧
  file_rinominati st' = file_rinominati st ∪ list_to_set (renamed_files calls) ∧
  indice_file st' = without_all (renamed_files calls) (indice_file st).
Proof.
  assert (∀ (st' : Store) (matched : list string),
    rename_calls st' = rename_calls st → file_rinominati st' = file_rinominati st →
    indice_file st' = indice_file st →
    let calls := new_calls st st' in
    rename_calls st' = rename_calls st ++ calls ∧
    call_file <$> calls ⊆ matched ∧
    file_rinominati st' = file_rinominati st ∪ list_to_set (renamed_files calls) ∧
    indice_file st' = without_all (renamed_files calls) (indice_file st)) as Hsame.
  { intros st' matched Hc Hr Hi. simpl.
    assert (new_calls st st' = []) as ->.
    { apply new_calls_app. by rewrite app_nil_r. }
    rewrite app_nil_r. split_and!; [done | | |done].
    - intros x Hx. by apply elem_of_nil in Hx.
    - unfold renamed_files. simpl. rewrite Hr. set_solver. }
  destruct (present_cell EAN_COLUMN riga) as [testo|] eqn:Hean.
  - destruct (file_corrispondenti cols riga st) as [|f files] eqn:Hfiles.
    + rewrite (process_row_not_found _ _ _ _ _ _ Hean Hfiles).
      by apply Hsame.
    + rewrite (process_row_found _ _ _ _ _ _ Hean) by (by rewrite Hfiles).
      rewrite Hfiles.
      destruct (rename_files_spec (f :: files) (strip testo) folder
                  (append_codesi (strip testo) st))
        as (Hc & Hf & _ & _ & Hr & Hi & _).
      simpl in *.
      set (st' := (rename_files _ _ _ _).2) in *.
      assert (new_calls st st' = new_calls (append_codesi (strip testo) st) st')
        as -> by done.
      split_and!; [done | by rewrite Hf | done | done].
  - rewrite (process_row_skip _ _ _ _ _ Hean). by apply Hsame.
Qed.

(** Every file a row renames is one of the files it matched. *)
Lemma renamed_by_row_matched cols folder idx riga st :
  renamed_by_row cols folder (idx, riga) st
  ⊆ file_corrispondenti cols riga st.
Proof.
  unfold renamed_by_row. simpl.
  destruct (process_row_spec cols folder idx riga st) as (_ & Hsub & _).
  etrans; [apply renamed_files_subseteq | exact Hsub].
Qed.

(** No matched file is in the renamed set. *)
Lemma file_corrispondenti_not_renamed cols riga st f :
  f ∈ file_corrispondenti cols riga st →
  f ∈ keys (indice_file st) ∧ f ∉ file_rinominati st.
Proof.
  unfold file_corrispondenti.
  rewrite elem_of_trova_file_corrispondenti, elem_of_keys.
  intros (low & Hin & Hnot & _). eauto.
Qed.

(** Stores only lose index entries and only gain renamed files. *)
Lemma later_refl st : later st st.
Proof. by split. Qed.

Lemma later_trans st1 st2 st3 : later st1 st2 → later st2 st3 → later st1 st3.
Proof. intros [? ?] [? ?]. split; [set_solver | auto]. Qed.

Lemma process_row_later cols folder idx riga st :
  later st (process_row cols folder idx riga st).2.
Proof.
  destruct (process_row_spec cols folder idx riga st) as (_ & _ & Hr & Hi).
  split.
  - rewrite Hr. set_solver.
  - intros k. rewrite Hi, keys_without_all. tauto.
Qed.

Lemma stores_before_later cols folder righe st (j : nat) sj :
  stores_before cols folder righe st !! j = Some sj → later st sj.
Proof.
  revert st j. induction righe as [|[idx riga] righe IH]; intros st j; simpl.
  - done.
  - destruct j as [|j]; simpl.
    + intros [= ->]. apply later_refl.
    + intros Hj. eapply later_trans; [apply process_row_later | eauto].
Qed.

(** C2.  In any sequence of rows processed in order from any store, a
    file renamed by a row is out of the index when a later row is
    processed, is not among the files the later row matches, and is
    not renamed by the later row: the sets of files two rows rename
    are disjoint. *)
Theorem rows_consume_disjoint_files (cols : list string) (folder : string)
    (righe : list (nat * Series)) (st : Store) (i j : nat)
    (ri rj : nat * Series) (si sj : Store) :
  (i < j)%nat →
  righe !! i = Some ri → righe !! j = Some rj →
  stores_before cols folder righe st !! i = Some si →
  stores_before cols folder righe st !! j = Some sj →
  ∀ nome_file,
    nome_file ∈ renamed_by_row cols folder ri si →
    (nome_file ∉ keys (indice_file sj))
    ∧ (nome_file ∉ file_corrispondenti cols rj.2 sj)
    ∧ (nome_file ∉ renamed_by_row cols folder rj sj).
Proof.
  revert st i j. induction righe as [|[idx riga] righe IH]; intros st i j Hij.
  - done.
  - destruct j as [|j]; [lia|]. destruct i as [|i]; simpl.
    + intros [= <-] Hrj [= <-] Hsj f Hf.
      apply stores_before_later in Hsj as [Hsub Hkeys].
      destruct (process_row_spec cols folder idx riga st) as (_ & _ & Hr & Hi).
      unfold renamed_by_row in Hf. simpl in Hf.
      assert (f ∉ keys (indice_file sj)) as Hk.
      { intros Hin%Hkeys. rewrite Hi in Hin.
        apply keys_without_all in Hin. tauto. }
      assert (f ∉ file_corrispondenti cols rj.2 sj) as Hm.
      { intros Hin%file_corrispondenti_not_renamed. tauto. }
      split_and!; [done..|].
      intros Hin. apply Hm. destruct rj as [idxj rigaj].
      by apply (renamed_by_row_matched cols folder idxj rigaj sj).
    + intros Hri Hrj Hsi Hsj. eapply (IH _ i j); eauto. lia.
Qed.

End ProcessRow.

Section Records.
Implicit Types (riga : Series) (info : dict pyval).

Lemma get_aggiungi_colonne_absent cols riga info c :
  present_cell c riga = None →
  get c (aggiungi_colonne cols riga info) = get c info.
Proof.
  intros Hc. revert info. induction cols as [|c' cols IH]; intros info; simpl.
  - done.
  - destruct (present_cell c' riga) as [t|] eqn:Hc'; [|apply IH].
    rewrite IH. apply get_set_ne. congruence.
Qed.

Lemma get_aggiungi_colonne_other cols riga info c :
  c ∉ cols → get c (aggiungi_colonne cols riga info) = get c info.
Proof.
  revert info. induction cols as [|c' cols IH]; intros info Hc; simpl.
  - done.
  - apply not_elem_of_cons in Hc as [Hne Hc].
    destruct (present_cell c' riga) as [t|]; [|by apply IH].
    rewrite IH by done. by apply get_set_ne.
Qed.

Lemma get_aggiungi_colonne_present cols riga info c testo :
  c ∈ cols → present_cell c riga = Some testo →
  get c (aggiungi_colonne cols riga info) = Some (PyStr testo).
Proof.
  intros Hin Hc. revert info.
  induction cols as [|c' cols IH]; intros info; simpl.
  - by apply elem_of_nil in Hin.
  - destruct (decide (c ∈ cols)) as [Hin'|Hnotin].
    + destruct (present_cell c' riga); by apply IH.
    + apply elem_of_cons in Hin as [->|]; [|done]. rewrite Hc.
      rewrite get_aggiungi_colonne_other by done. apply get_set_eq.
Qed.

Lemma keys_aggiungi_colonne cols riga info k :
  k ∈ keys (aggiungi_colonne cols riga info) → k ∈ keys info ∨ k ∈ cols.
Proof.
  revert info. induction cols as [|c cols IH]; intros info; simpl; [auto|].
  destruct (present_cell c riga) as [t|].
  - intros [Hk|Hk]%IH; [|by right; right].
    apply keys_set in Hk as [->|Hk]; [right; left | left]; done.
  - intros [Hk|Hk]%IH; [by left | by right; right].
Qed.

(** The same loop fills [valori] with the lowered, stripped text. *)
Lemma get_estrai_valori_other cols riga (valori : dict string) c :
  c ∉ cols → get c (estrai_valori cols riga valori) = get c valori.
Proof.
  revert valori. induction cols as [|c' cols IH]; intros valori Hc; simpl.
  - done.
  - apply not_elem_of_cons in Hc as [Hne Hc].
    destruct (present_cell c' riga) as [t|]; [|by apply IH].
    rewrite IH by done. by apply get_set_ne.
Qed.

Lemma get_estrai_valori_present cols riga (valori : dict string) c testo :
  c ∈ cols → present_cell c riga = Some testo →
  get c (estrai_valori cols riga valori) = Some (strip (lower testo)).
Proof.
  intros Hin Hc. revert valori.
  induction cols as [|c' cols IH]; intros valori; simpl.
  - by apply elem_of_nil in Hin.
  - destruct (decide (c ∈ cols)) as [Hin'|Hnotin].
    + destruct (present_cell c' riga); by apply IH.
    + apply elem_of_cons in Hin as [->|]; [|done]. rewrite Hc.
      rewrite get_estrai_valori_other by done. apply get_set_eq.
Qed.

(** What the record of a row holds under an attribute column, next to
    what [valori] holds for it. *)
Lemma info_riga_columns (cols : list string) (idx : nat)
    (riga : Series) (ean data colonna : string) :
  colonna ∈ cols →
  let info_riga := make_info_riga cols idx riga ean data in
  (∀ testo, present_cell colonna riga = Some testo →
     get colonna info_riga = Some (PyStr testo)
     ∧ get colonna (estrai_valori cols riga []) = Some (strip (lower testo)))
  ∧ (present_cell colonna riga = None → colonna ∉ reserved_keys →
     get colonna info_riga = None).
Proof.
  intros Hin info_riga. split.
  - intros testo Hc. split.
    + by apply get_aggiungi_colonne_present.
    + by apply get_estrai_valori_present.
  - intros Hc Hres. unfold info_riga, make_info_riga.
    rewrite get_aggiungi_colonne_absent by done.
    unfold reserved_keys in Hres. simpl.
    repeat (case_decide; [subst; exfalso; apply Hres; set_solver|]). done.
Qed.

(** The schemas of the script have no column under a reserved key. *)
Lemma brand_columns_not_reserved (brand_name : string) (cols : list string) :
  get brand_name BRAND_COLUMN_MAPPINGS = Some cols →
  ∀ k, k ∈ reserved_keys → k ∉ cols.
Proof.
  unfold BRAND_COLUMN_MAPPINGS. simpl.
  repeat (case_decide; [intros [= <-]; intros k Hk;
    unfold reserved_keys in Hk; set_solver|]). done.
Qed.

End Records.

Section Accounting.
Context `{Platform}.
Implicit Types (st : Store) (riga : Series).

Lemma unmatched_in_true cols riga st :
  unmatched_in cols riga st = true ↔
  ∃ testo, present_cell EAN_COLUMN riga = Some testo ∧
           file_corrispondenti cols riga st = [].
Proof.
  unfold unmatched_in. destruct (present_cell EAN_COLUMN riga) as [t|].
  - rewrite bool_decide_eq_true. split; [eauto | by intros (? & _ & ?)].
  - split; [done | by intros (? & ? & _)].
Qed.

Lemma process_row_unmatched cols folder idx riga st :
  unmatched_in cols riga st = true →
  ∃ testo, present_cell EAN_COLUMN riga = Some testo ∧
  process_row cols folder idx riga st =
  (0%nat,
   append_non_trovato (info_of_row cols idx riga st) (strip testo)
     (set_os (datetime_now "%Y-%m-%d %H:%M:%S" (os_state st)).2 st)).
Proof.
  intros (testo & Hean & Hfiles)%unmatched_in_true. exists testo.
  split; [done|]. rewrite (process_row_not_found _ _ _ _ _ _ Hean Hfiles).
  unfold info_of_row. by rewrite Hean.
Qed.

(** C10.  For a row of one of the script's schemas that finds no file,
    the record appended to the unmatched list holds, under every
    attribute column whose cell is present, the text of the cell as it
    was read, while the value used for matching is that text lowered
    and stripped; a column whose cell is missing has no entry in the
    record. *)
Theorem report_record_keeps_raw_cells (brand_name : string)
    (cols : list string) (folder : string) (idx : nat) (riga : Series)
    (st : Store) (colonna : string) :
  get brand_name BRAND_COLUMN_MAPPINGS = Some cols →
  unmatched_in cols riga st = true →
  colonna ∈ cols →
  let info_riga := info_of_row cols idx riga st in
  ean_non_trovati (process_row cols folder idx riga st).2
    = ean_non_trovati st ++ [info_riga]
  ∧ (∀ testo, present_cell colonna riga = Some testo →
       get colonna info_riga = Some (PyStr testo)
       ∧ get colonna (estrai_valori cols riga [])
         = Some (strip (lower testo)))
  ∧ (present_cell colonna riga = None → get colonna info_riga = None).
Proof.
  intros Hbrand Hun Hin info_riga.
  destruct (process_row_unmatched cols folder idx riga st Hun)
    as (testo & _ & ->).
  destruct (info_riga_columns cols idx riga
              (strip (default "" (present_cell EAN_COLUMN riga)))
              (datetime_now "%Y-%m-%d %H:%M:%S" (os_state st)).1 colonna Hin)
    as [Hpresent Hmissing].
  split_and!; [done | exact Hpresent |].
  intros Hc. apply Hmissing; [done|].
  intros Hres. by apply (brand_columns_not_reserved brand_name cols Hbrand colonna).
Qed.

(** A row that is skipped or finds files leaves the unmatched lists
    alone. *)
Lemma process_row_matched_or_skipped cols folder idx riga st :
  unmatched_in cols riga st = false →
  ean_non_trovati (process_row cols folder idx riga st).2 = ean_non_trovati st
  ∧ codeno (process_row cols folder idx riga st).2 = codeno st.
Proof.
  intros Hun. destruct (present_cell EAN_COLUMN riga) as [testo|] eqn:Hean.
  - destruct (decide (file_corrispondenti cols riga st = [])) as [Hnil|Hne].
    + assert (unmatched_in cols riga st = true); [|congruence].
      apply unmatched_in_true. eauto.
    + rewrite (process_row_found _ _ _ _ _ _ Hean Hne).
      destruct (rename_files_spec (file_corrispondenti cols riga st)
                  (strip testo) folder (append_codesi (strip testo) st))
        as (_ & _ & _ & _ & _ & _ & He & Hno & _).
      by rewrite He, Hno.
  - by rewrite (process_row_skip _ _ _ _ _ Hean).
Qed.

Lemma unmatched_rows_cons cols folder idx riga righe st :
  unmatched_rows cols folder ((idx, riga) :: righe) st =
  (if unmatched_in cols riga st then [((idx, riga), st)] else [])
  ++ unmatched_rows cols folder righe (process_row cols folder idx riga st).2.
Proof.
  unfold unmatched_rows. simpl. rewrite filter_cons. simpl.
  destruct (unmatched_in cols riga st).
  - by rewrite decide_True.
  - by rewrite decide_False.
Qed.

(** The unmatched lists after a sequence of rows: one record per row
    that found no file when it was processed, in order. *)
Lemma process_rows_unmatched cols folder righe :
  ∀ renamed st,
  let st' := (process_rows cols folder righe renamed st).2 in
  let unmatched := unmatched_rows cols folder righe st in
  ean_non_trovati st'
    = ean_non_trovati st
      ++ ((λ u, info_of_row cols u.1.1 u.1.2 u.2) <$> unmatched)
  ∧ length (codeno st') = (length (codeno st) + length unmatched)%nat.
Proof.
  induction righe as [|[idx riga] righe IH]; intros renamed st; simpl.
  - unfold unmatched_rows. simpl. rewrite app_nil_r. split; [done | lia].
  - rewrite unmatched_rows_cons.
    destruct (process_row cols folder idx riga st) as [n st1] eqn:Hrow.
    specialize (IH (renamed + n)%nat st1). simpl in IH.
    destruct IH as [IHe IHc]. rewrite IHe, IHc. simpl.
    destruct (unmatched_in cols riga st) eqn:Hun.
    + destruct (process_row_unmatched cols folder idx riga st Hun)
        as (testo & _ & Heq).
      rewrite Hrow in Heq. injection Heq as _ ->. simpl.
      rewrite <- app_assoc, !length_app. simpl. split; [done | lia].
    + destruct (process_row_matched_or_skipped cols folder idx riga st Hun)
        as [He Hno].
      rewrite Hrow in He, Hno. simpl in *. by rewrite He, Hno.
Qed.

(** Every row with an EAN is recorded once, as found or as not found. *)
Lemma process_row_tally cols folder idx riga st :
  let st' := (process_row cols folder idx riga st).2 in
  (length (codesi st') + length (codeno st')
   = length (codesi st) + length (codeno st)
     + length (valid_rows [(idx, riga)]))%nat.
Proof.
  unfold valid_rows. rewrite filter_cons, filter_nil. simpl.
  destruct (present_cell EAN_COLUMN riga) as [testo|] eqn:Hean.
  - rewrite decide_True by eauto. simpl.
    destruct (decide (file_corrispondenti cols riga st = [])) as [Hnil|Hne].
    + rewrite (process_row_not_found _ _ _ _ _ _ Hean Hnil). simpl.
      rewrite length_app. simpl. lia.
    + rewrite (process_row_found _ _ _ _ _ _ Hean Hne).
      destruct (rename_files_spec (file_corrispondenti cols riga st)
                  (strip testo) folder (append_codesi (strip testo) st))
        as (_ & _ & _ & _ & _ & _ & _ & Hno & Hsi).
      rewrite Hno, Hsi. simpl. rewrite length_app. simpl. lia.
  - rewrite decide_False by (by intros [? ?]).
    rewrite (process_row_skip _ _ _ _ _ Hean). simpl. lia.
Qed.

Lemma process_rows_tally cols folder righe :
  ∀ renamed st,
  let st' := (process_rows cols folder righe renamed st).2 in
  (length (codesi st') + length (codeno st')
   = length (codesi st) + length (codeno st) + length (valid_rows righe))%nat.
Proof.
  induction righe as [|[idx riga] righe IH]; intros renamed st; simpl.
  - unfold valid_rows. simpl. lia.
  - pose proof (process_row_tally cols folder idx riga st) as Hrow.
    destruct (process_row cols folder idx riga st) as [n st1].
    specialize (IH (renamed + n)%nat st1). simpl in *.
    rewrite IH, Hrow. unfold valid_rows. rewrite !filter_cons.
    destruct (decide _); simpl; lia.
Qed.

Lemma process_rows_app cols folder righe1 righe2 renamed st :
  process_rows cols folder (righe1 ++ righe2) renamed st
  = process_rows cols folder righe2
      (process_rows cols folder righe1 renamed st).1
      (process_rows cols folder righe1 renamed st).2.
Proof.
  revert renamed st. induction righe1 as [|[idx riga] righe1 IH];
    intros renamed st; simpl; [done|].
  destruct (process_row cols folder idx riga st). apply IH.
Qed.

Lemma process_rows_store cols folder righe :
  ∀ m m' st,
  (process_rows cols folder righe m st).2
  = (process_rows cols folder righe m' st).2.
Proof.
  induction righe as [|[idx riga] righe IH]; intros m m' st; simpl; [done|].
  destruct (process_row _ _ _ _ _). apply IH.
Qed.

(** The store a run leaves is the one its rows lead to. *)
Lemma process_sheets_run_rows cols folder fogli :
  ∀ n st,
  (process_sheets fogli cols folder n st).2
  = (process_rows cols folder (run_rows cols fogli) 0 st).2.
Proof.
  induction fogli as [|[df|] fogli IH]; intros n st; simpl; [done| |done].
  destruct (columns_present cols df); [|done].
  rewrite process_rows_app.
  destruct (process_rows cols folder (iterrows df) 0 st) as [m st1].
  simpl. rewrite IH. apply process_rows_store.
Qed.

Lemma process_sheets_returns cols folder fogli :
  forallb (sheet_ok cols) fogli = true →
  ∀ n st, ∃ m, (process_sheets fogli cols folder n st).1 = Returned m.
Proof.
  induction fogli as [|[df|] fogli IH]; simpl; intros Hok n st; [eauto| |done].
  apply andb_true_iff in Hok as [Hdf Hok]. unfold process_sheet. rewrite Hdf.
  destruct (process_rows _ _ _ _ _). by apply IH.
Qed.

(** The index of a row of a run is its position in its sheet. *)
Lemma elem_of_run_rows cols fogli idx riga :
  (idx, riga) ∈ run_rows cols fogli →
  ∃ df, Some df ∈ fogli ∧ df_rows df !! idx = Some riga.
Proof.
  induction fogli as [|[df|] fogli IH]; simpl.
  - by intros ?%elem_of_nil.
  - destruct (columns_present cols df); [|by intros ?%elem_of_nil].
    intros [Hin|Hin]%elem_of_app.
    + exists df. split; [left|].
      unfold iterrows in Hin. apply elem_of_lookup_imap in Hin
        as (i & x & [= -> ->] & Hx). done.
    + destruct (IH Hin) as (df' & ? & ?). exists df'. split; [by right | done].
  - by intros ?%elem_of_nil.
Qed.

Lemma elem_of_unmatched_rows cols folder righe st u :
  u ∈ unmatched_rows cols folder righe st →
  u.1 ∈ righe ∧ unmatched_in cols u.1.2 u.2 = true.
Proof.
  unfold unmatched_rows. intros [Hun Hin]%list_elem_of_filter.
  split; [|done]. destruct u as [r s]. by apply elem_of_zip_l in Hin.
Qed.

End Accounting.

Section Report.
Context `{Platform}.

Lemma writerow_Some (fieldnames : list string) (record : dict pyval) :
  (∀ k, k ∈ keys record → k ∈ fieldnames) →
  writerow fieldnames record = Some (fields_of fieldnames record).
Proof.
  intros Hkeys. unfold writerow.
  destruct (forallb _ (keys record)) eqn:E; [done|].
  apply not_true_iff_false in E. exfalso. apply E.
  apply forallb_forall. intros k Hk%list_elem_of_In.
  apply bool_decide_eq_true. auto.
Qed.

Lemma make_report_empty (reports_folder brand_name : string)
    (cols : list string) (o : OS) :
  (make_report [] reports_folder brand_name cols o).1 = NoReport.
Proof. unfold make_report. by destruct (datetime_now _ _). Qed.

Lemma make_report_written (non_trovati : list (dict pyval))
    (reports_folder brand_name : string) (cols : list string) (o : OS) :
  non_trovati ≠ [] →
  (∀ record k, record ∈ non_trovati → k ∈ keys record →
     k ∈ reserved_keys ++ cols) →
  ∃ r, (make_report non_trovati reports_folder brand_name cols o).1 = Written r
       ∧ report_header r = reserved_keys ++ cols
       ∧ report_rows r = fields_of (reserved_keys ++ cols) <$> non_trovati.
Proof.
  intros Hne Hkeys. unfold make_report.
  destruct (datetime_now _ _) as [datetime_str o'].
  destruct non_trovati as [|record non_trovati]; [done|].
  assert (mapM (writerow (reserved_keys ++ cols)) (record :: non_trovati)
          = Some (fields_of (reserved_keys ++ cols) <$> (record :: non_trovati)))
    as Hrows.
  { apply mapM_Some_2. apply Forall2_fmap_r, Forall_Forall2_diag.
    apply Forall_forall. intros rec Hrec. apply writerow_Some. eauto. }
  change (["riga_excel"; "ean"; "data"] ++ cols) with (reserved_keys ++ cols).
  rewrite Hrows. eauto.
Qed.

Lemma keys_info_of_row cols idx riga (st : Store) k :
  k ∈ keys (info_of_row cols idx riga st) → k ∈ reserved_keys ++ cols.
Proof.
  unfold info_of_row, make_info_riga.
  intros [Hk|Hk]%keys_aggiungi_colonne; apply elem_of_app; [left | by right].
  unfold keys in Hk. simpl in Hk. done.
Qed.

Lemma riga_excel_info_of_row cols idx riga (st : Store) :
  "riga_excel" ∉ cols →
  get "riga_excel" (info_of_row cols idx riga st) = Some (PyInt (idx + 1)).
Proof.
  intros Hnot. unfold info_of_row, make_info_riga.
  by rewrite get_aggiungi_colonne_other.
Qed.

(** X18.  In a run that goes through all its sheets, with [N] the
    number of rows whose EAN cell is not missing (a cell of blanks
    counts) and [M] the number of those that
    match no file in the store they are processed in: the unmatched
    lists of the final store have [M] entries and the list of found
    EANs has the other [N - M], no report is written exactly when
    [M = 0], a report
    is written exactly when [1 <= M], the report has [M] rows, and the
    first field of each row is the one-based position of its
    spreadsheet row in its sheet. *)
Theorem unmatched_rows_are_tallied_and_reported (season brand_name : string)
    (fogli : list (option DataFrame)) (o : OS) (cols tutti_file : list string) :
  let photo_folder := (setup_paths season brand_name).1.1 in
  let reports_folder := (setup_paths season brand_name).2 in
  let o1 := optimize_images_in_folder photo_folder
              (make_report_dir reports_folder o) in
  get brand_name BRAND_COLUMN_MAPPINGS = Some cols →
  os_listdir photo_folder o1 = Some tutti_file →
  forallb (sheet_ok cols) fogli = true →
  let unmatched := unmatched_rows cols photo_folder (run_rows cols fogli)
                     (initial_store tutti_file o1) in
  let M := length unmatched in
  let N := length (valid_rows (run_rows cols fogli)) in
  ∃ conteggio st report,
    rinomina_foto_in_batch season brand_name (Some fogli) o
      = Completed conteggio st report
    ∧ length (ean_non_trovati st) = M
    ∧ length (codeno st) = M
    ∧ (length (codesi st) + M = N)%nat
    ∧ (report = NoReport ↔ M = 0%nat)
    ∧ ((∃ r, report = Written r) ↔ (1 ≤ M)%nat)
    ∧ (∀ r, report = Written r →
         length (report_rows r) = M
         ∧ (λ campi, campi !! 0%nat) <$> report_rows r
           = (λ u, Some (str_of_nat (u.1.1 + 1))) <$> unmatched)
    ∧ (∀ u, u ∈ unmatched →
         ∃ df, Some df ∈ fogli ∧ df_rows df !! u.1.1 = Some u.1.2).
Proof.
  intros photo_folder reports_folder o1 Hbrand Hls Hok unmatched M N.
  unfold rinomina_foto_in_batch.
  destruct (setup_paths season brand_name) as [[pf ef] rf] eqn:Hpaths.
  simpl in photo_folder, reports_folder. subst photo_folder reports_folder.
  rewrite Hbrand. fold o1. rewrite Hls.
  set (st0 := initial_store tutti_file o1) in *.
  destruct (process_sheets_returns cols pf fogli Hok 0%nat st0) as [m Hm].
  pose proof (process_sheets_run_rows cols pf fogli 0%nat st0) as Hst.
  destruct (process_sheets fogli cols pf 0 st0) as [res st1].
  simpl in Hm, Hst. subst res.
  destruct (process_rows_unmatched cols pf (run_rows cols fogli) 0%nat st0)
    as [He Hno].
  simpl in He, Hno. rewrite <- Hst in He, Hno. fold unmatched in He, Hno.
  change (ean_non_trovati st0) with (@nil (dict pyval)) in He.
  change (codeno st0) with (@nil string) in Hno. simpl in He, Hno.
  assert (length (ean_non_trovati st1) = M) as HlenM.
  { rewrite He. by rewrite length_fmap. }
  assert (length (codesi st1) + M = N)%nat as HN.
  { pose proof (process_rows_tally cols pf (run_rows cols fogli) 0%nat st0)
      as Htally.
    simpl in Htally. rewrite <- Hst in Htally. rewrite Hno in Htally.
    exact Htally. }
  destruct (make_report (ean_non_trovati st1) rf brand_name cols (os_state st1))
    as [report o2] eqn:Hrep.
  exists m, (set_os o2 st1), report.
  assert (∀ u, u ∈ unmatched →
            ∃ df, Some df ∈ fogli ∧ df_rows df !! u.1.1 = Some u.1.2) as Hpos.
  { intros [[idx riga] s] [Hin _]%elem_of_unmatched_rows.
    by apply (elem_of_run_rows cols). }
  destruct (decide (M = 0%nat)) as [HM0|HM0].
  - assert (ean_non_trovati st1 = []) as Hnil.
    { apply length_zero_iff_nil. lia. }
    rewrite Hnil in Hrep.
    pose proof (make_report_empty rf brand_name cols (os_state st1)) as Hno_rep.
    rewrite Hrep in Hno_rep. simpl in Hno_rep. subst report.
    split_and!; try done.
    + split; [intros [r [=]] | lia].
  - assert (ean_non_trovati st1 ≠ []) as Hne.
    { intros Hnil. rewrite Hnil in HlenM. simpl in HlenM. lia. }
    destruct (make_report_written (ean_non_trovati st1) rf brand_name cols
                (os_state st1) Hne) as (r & Hr & Hhead & Hrows).
    { intros record k Hrec Hk. rewrite He in Hrec.
      apply list_elem_of_fmap in Hrec as (u & -> & _).
      by apply keys_info_of_row in Hk. }
    rewrite Hrep in Hr. simpl in Hr. subst report.
    split_and!; try done.
    + split; [intros _; lia | eauto].
    + intros r' [= <-]. rewrite Hrows, He. rewrite !length_fmap.
      split; [done|]. rewrite <- !list_fmap_compose.
      apply list_fmap_ext. intros _ [[idx riga] s] _. simpl.
      rewrite riga_excel_info_of_row; [done|].
      apply (brand_columns_not_reserved brand_name cols Hbrand).
      unfold reserved_keys. set_solver.
Qed.

End Report.

(** * The index of a run *)

Lemma build_index_spec (files : list string) :
  lower_cached (build_index files) ∧ NoDup (keys (build_index files))
  ∧ ∀ f, f ∈ keys (build_index files) ↔ f ∈ files.
Proof.
  unfold build_index.
  assert (∀ d : dict string,
    lower_cached d → NoDup (keys d) →
    let d' := foldl (λ d file, set file (lower file) d) d files in
    lower_cached d' ∧ NoDup (keys d')
    ∧ ∀ f, f ∈ keys d' ↔ f ∈ keys d ∨ f ∈ files) as Hgen.
  { induction files as [|file files IH]; intros d Hlow Hnd; simpl.
    - split_and!; [done..|]. intros f. rewrite elem_of_nil. tauto.
    - destruct (IH (set file (lower file) d)) as (Hl & Hn & Hk).
      + intros f low [[= -> ->]|Hin]%elem_of_set; [done | by apply Hlow].
      + by apply NoDup_keys_set.
      + split_and!; [done..|]. intros f. rewrite Hk, keys_set, elem_of_cons.
        tauto. }
  destruct (Hgen []) as (Hl & Hn & Hk).
  - intros f low Hin. by apply elem_of_nil in Hin.
  - apply NoDup_nil_2.
  - split_and!; [done..|]. intros f. rewrite Hk.
    unfold keys; simpl. rewrite elem_of_nil. tauto.
Qed.

Lemma rev_app_acc (s acc : string) :
  String.rev_app s acc = String.rev s +:+ acc.
Proof.
  unfold String.rev. revert acc. induction s as [|c s IH]; intros acc; simpl.
  - done.
  - rewrite (IH (String c acc)), (IH (String c "")).
    by rewrite str_app_assoc, str_app_cons.
Qed.

Lemma rev_cons (c : ascii) (s : string) :
  String.rev (String c s) = String.rev s +:+ String c "".
Proof. unfold String.rev at 1. simpl. apply rev_app_acc. Qed.

Lemma rev_app_distr (s t : string) :
  String.rev (s +:+ t) = String.rev t +:+ String.rev s.
Proof.
  induction s as [|c s IH].
  - by rewrite str_app_nil_l, str_app_nil_r.
  - by rewrite str_app_cons, !rev_cons, IH, str_app_assoc.
Qed.

Lemma rev_involutive (s : string) : String.rev (String.rev s) = s.
Proof.
  induction s as [|c s IH]; [done|].
  by rewrite rev_cons, rev_app_distr, IH.
Qed.

(** [endswith] decides "is a suffix of". *)
Lemma endswith_spec (s p : string) :
  endswith s p = true ↔ ∃ stem, s = stem +:+ p.
Proof.
  unfold endswith. rewrite startswith_spec. split.
  - intros [t Ht]. exists (String.rev t).
    rewrite <- (rev_involutive s), Ht, rev_app_distr.
    by rewrite rev_involutive.
  - intros [stem ->]. exists (String.rev stem). apply rev_app_distr.
Qed.

Lemma file_jpg_spec (tutti_file : list string) (f : string) :
  f ∈ file_jpg tutti_file ↔
  f ∈ tutti_file ∧ ∃ stem, lower f = stem +:+ FILE_EXTENSION.
Proof.
  unfold file_jpg. rewrite list_elem_of_filter.
  rewrite endswith_spec. tauto.
Qed.

Section RunIndex.
Context `{Platform}.

Lemma lower_cached_without_all (ks : list string) (d : dict string) :
  lower_cached d → lower_cached (without_all ks d).
Proof.
  intros Hlow f low Hin%elem_of_without_all. apply Hlow, Hin.
Qed.

Lemma process_row_lower_cached cols folder idx riga (st : Store) :
  lower_cached (indice_file st) →
  lower_cached (indice_file (process_row cols folder idx riga st).2).
Proof.
  destruct (process_row_spec cols folder idx riga st) as (_ & _ & _ & ->).
  apply lower_cached_without_all.
Qed.

(** In every store of a run the index caches the lowered names. *)
Lemma stores_before_lower_cached cols folder righe (st : Store) s :
  lower_cached (indice_file st) →
  s ∈ stores_before cols folder righe st → lower_cached (indice_file s).
Proof.
  revert st. induction righe as [|[idx riga] righe IH]; intros st Hlow; simpl.
  - by intros ?%elem_of_nil.
  - intros [->|Hin]%elem_of_cons; [done|].
    eapply IH; [|done]. by apply process_row_lower_cached.
Qed.

Lemma initial_store_lower_cached (tutti_file : list string) (o : OS) :
  lower_cached (indice_file (initial_store tutti_file o)).
Proof. apply build_index_spec. Qed.

(** A row touches nothing exactly when its EAN cell is missing. *)
Lemma row_skipped_iff_ean_missing cols folder idx riga (st : Store) :
  process_row cols folder idx riga st = (0%nat, st)
  ↔ present_cell EAN_COLUMN riga = None.
Proof.
  split; [|apply process_row_skip].
  destruct (present_cell EAN_COLUMN riga) as [testo|] eqn:Hean; [|done].
  intros Heq. exfalso.
  destruct (decide (file_corrispondenti cols riga st = [])) as [Hnil|Hne].
  - rewrite (process_row_not_found _ _ _ _ _ _ Hean Hnil) in Heq.
    injection Heq as Heq. apply (f_equal (λ s, length (codeno s))) in Heq.
    simpl in Heq. rewrite length_app in Heq. simpl in Heq. lia.
  - rewrite (process_row_found _ _ _ _ _ _ Hean Hne) in Heq.
    destruct (rename_files_spec (file_corrispondenti cols riga st)
                (strip testo) folder (append_codesi (strip testo) st))
      as (_ & _ & _ & _ & _ & _ & _ & _ & Hsi).
    rewrite Heq in Hsi. simpl in Hsi.
    apply (f_equal length) in Hsi. rewrite length_app in Hsi.
    simpl in Hsi. lia.
Qed.

End RunIndex.

(** [root + ext] gives the path back. *)
Lemma slice_to_from (n : nat) (s : string) : slice_to n s +:+ slice_from n s = s.
Proof.
  revert s. induction n as [|n IH]; intros [|c s]; simpl; try done.
  by rewrite str_app_cons, IH.
Qed.

Lemma splitext_join (p : string) : (splitext p).1 +:+ (splitext p).2 = p.
Proof.
  unfold splitext. destruct (_ && _); simpl.
  - apply slice_to_from.
  - apply str_app_nil_r.
Qed.

Lemma has_char_app (c : ascii) (s t : string) :
  has_char c (s +:+ t) = has_char c s || has_char c t.
Proof.
  induction s as [|a s IH]; [done|].
  rewrite str_app_cons. simpl. by rewrite IH, orb_assoc.
Qed.

Lemma rfind_from_absent (c : ascii) (s : string) (i last : Z) :
  has_char c s = false → rfind_from c s i last = last.
Proof.
  revert i last. induction s as [|a s IH]; intros i last; simpl; [done|].
  intros [Ha Hs]%orb_false_iff. rewrite Ha. by apply IH.
Qed.

(** [rfind] gives the offset of the last occurrence. *)
Lemma rfind_from_last (c : ascii) (s1 s2 : string) (i last : Z) :
  has_char c s2 = false →
  rfind_from c (s1 +:+ String c s2) i last
  = (i + Z.of_nat (String.length s1))%Z.
Proof.
  intros Hs2. revert i last. induction s1 as [|a s1 IH]; intros i last.
  - rewrite str_app_nil_l. simpl. rewrite Ascii.eqb_refl.
    rewrite rfind_from_absent by done. lia.
  - rewrite str_app_cons. simpl. rewrite IH. lia.
Qed.

Lemma slice_to_app (s t : string) : slice_to (String.length s) (s +:+ t) = s.
Proof.
  induction s as [|a s IH].
  - by destruct t.
  - rewrite str_app_cons. simpl. by rewrite IH.
Qed.

Lemma slice_from_app (s t : string) :
  slice_from (String.length s) (s +:+ t) = t.
Proof.
  induction s as [|a s IH].
  - by destruct t.
  - rewrite str_app_cons. simpl. by rewrite IH.
Qed.

Lemma has_non_dot_app (s t : string) :
  has_non_dot (s +:+ t) (String.length s) = true
  ↔ ∃ c, c ≠ extsep ∧ has_char c s = true.
Proof.
  induction s as [|a s IH].
  - split; [by destruct t | by intros (c & _ & ?)].
  - rewrite str_app_cons. simpl.
    rewrite orb_true_iff, IH, negb_true_iff. split.
    + intros [Ha|(c & Hc & Hin)].
      * exists a. rewrite Ascii.eqb_refl. split; [|done].
        intros ->. by rewrite Ascii.eqb_refl in Ha.
      * exists c. rewrite Hin, orb_true_r. done.
    + intros (c & Hc & [Heq|Hin]%orb_true_iff).
      * apply Ascii.eqb_eq in Heq as ->. left. by apply Ascii.eqb_neq.
      * right. eauto.
Qed.

(** The extension of a file name: for a name without [/] whose last dot
    comes after some character that is not a dot, [splitext] cuts the
    name at that dot. *)
Lemma splitext_stem_ext (stem e : string) :
  has_char sep stem = false → has_char sep e = false →
  has_char extsep e = false →
  (∃ c, c ≠ extsep ∧ has_char c stem = true) →
  splitext (stem +:+ String extsep e) = (stem, String extsep e).
Proof.
  intros Hsep_stem Hsep_e Hdot_e Hstem. unfold splitext, rfind.
  rewrite (rfind_from_absent sep)
    by (rewrite has_char_app; simpl; by rewrite Hsep_stem, Hsep_e).
  rewrite rfind_from_last by done.
  replace (Z.to_nat (-1 + 1)) with 0%nat by lia.
  replace (Z.to_nat (0 + Z.of_nat (String.length stem) - (-1 + 1)))
    with (String.length stem) by lia.
  replace (Z.to_nat (0 + Z.of_nat (String.length stem)))
    with (String.length stem) by lia.
  assert (slice_from 0 (stem +:+ String extsep e) = stem +:+ String extsep e)
    as -> by (by destruct (stem +:+ String extsep e)).
  rewrite (proj2 (has_non_dot_app stem (String extsep e)) Hstem).
  rewrite slice_to_app, slice_from_app.
  assert ((-1 <? 0 + Z.of_nat (String.length stem))%Z = true) as ->
    by (apply Z.ltb_lt; lia).
  done.
Qed.

Example splitext_photo : splitext "red-shoe.JPG" = ("red-shoe", ".JPG").
Proof. by apply (splitext_stem_ext "red-shoe" "JPG"); [..|exists "r"%char]. Qed.

(** C7.  With the photos [red-shoe.jpg] and [red-shoe-2.jpg] and two
    rows whose only attribute value is [red], all renames succeeding:
    when row A (EAN 111) comes first it takes both photos and row B
    (EAN 222) is unmatched; when B comes first it takes both and A is
    unmatched.  The rows of a sheet are taken in the order of the
    sheet, one after the other. *)
Theorem row_order_decides_which_row_is_unmatched :
  esito (run (Some [foglio [riga_A; riga_B]]) red_shoes)
  = Some (2%nat, ["111"], ["222"],
          [call "red-shoe.jpg" "111-0.jpg" true;
           call "red-shoe-2.jpg" "111-1.jpg" true], [])
  ∧ esito (run (Some [foglio [riga_B; riga_A]]) red_shoes)
    = Some (2%nat, ["222"], ["111"],
            [call "red-shoe.jpg" "222-0.jpg" true;
             call "red-shoe-2.jpg" "222-1.jpg" true], [])
  ∧ (∀ (df : DataFrame) (i : nat),
       iterrows df !! i = (λ riga, (i, riga)) <$> df_rows df !! i)
  ∧ (∀ (P : Platform) cols photo_folder righe1 righe2 renamed (st : Store),
       process_rows cols photo_folder (righe1 ++ righe2) renamed st
       = process_rows cols photo_folder righe2
           (process_rows cols photo_folder righe1 renamed st).1
           (process_rows cols photo_folder righe1 renamed st).2).
Proof.
  split_and!.
  - vm_compute. reflexivity.
  - vm_compute. reflexivity.
  - intros df i. unfold iterrows. apply list_lookup_imap.
  - intros. apply process_rows_app.
Qed.

(** C4, on the code.  A row whose EAN cell holds only blanks is not
    skipped: the cell is present, its stripped text is empty, and the
    row is processed with the empty EAN.  When it matches photos they
    are renamed to [-0.jpg], [-1.jpg]; when it matches none it is
    recorded as unmatched. *)
Theorem blank_ean_row_is_processed :
  strip "   " = ""
  ∧ present_cell EAN_COLUMN (riga "red" "   ") = Some "   "
  ∧ esito (run (Some [foglio [riga "red" "   "]]) red_shoes)
    = Some (2%nat, [""], [],
            [call "red-shoe.jpg" "-0.jpg" true;
             call "red-shoe-2.jpg" "-1.jpg" true], [])
  ∧ esito (run (Some [foglio [riga "green" "   "]]) red_shoes)
    = Some (0%nat, [], [""], [], ["red-shoe.jpg"; "red-shoe-2.jpg"]).
Proof. split_and!; vm_compute; reflexivity. Qed.

(** Counterexample to C3.  The first photo cannot be renamed: the call
    made for row A fails, the photo stays in the index, row B matches
    it and tries to rename it again, and it is still in the index at
    the end of the run. *)
Lemma failed_rename_stays_in_index_and_is_matched_again :
  esito (run (Some [foglio [riga_A; riga_B]]) red_shoes_locked)
  = Some (1%nat, ["111"; "222"], [],
          [call "red-shoe.jpg" "111-0.jpg" false;
           call "red-shoe-2.jpg" "111-1.jpg" true;
           call "red-shoe.jpg" "222-0.jpg" false],
          ["red-shoe.jpg"]).
Proof. vm_compute. reflexivity. Qed.

(** The examples of substring matching. *)
Example blue_matches_by_substring :
  file_corrispondenti guess_columns (riga " Blue " "123")
    (store_of ["blueskirt.jpg"; "SKY-BLUE.JPG"; "blu.jpg"])
  = ["blueskirt.jpg"; "SKY-BLUE.JPG"].
Proof. vm_compute. reflexivity. Qed.

Example three_files_get_three_names :
  call_target <$>
    rename_calls
      (rename_files ["a.jpg"; "b.JPG"; "c.d.jpg"] "1234567890123" folder
         (store_of [])).2
  = ["1234567890123-0.jpg"; "1234567890123-1.JPG"; "1234567890123-2.jpg"].
Proof. vm_compute. reflexivity. Qed.

Example raw_and_matching_text_differ :
  get "Color" (make_info_riga guess_columns 0 (riga " Blue " "123") "123" "")
  = Some (PyStr " Blue ")
  ∧ get "Color" (estrai_valori guess_columns (riga " Blue " "123") [])
    = Some "blue".
Proof. split; vm_compute; reflexivity. Qed.

Lemma matcher_selects_iff_all_values_occur_witness :
  lower_cached (indice_file blue_photos)
  ∧ (("SKY-BLUE.JPG" ∈ trova_file_corrispondenti (items (indice_file blue_photos))
                 (file_rinominati blue_photos) (values [("Color", "blue")])
   ↔ "SKY-BLUE.JPG" ∈ keys (indice_file blue_photos)
     ∧ ("SKY-BLUE.JPG" ∉ file_rinominati blue_photos)
     ∧ ∀ valore, valore ∈ values [("Color", "blue")] → valore ≠ "" →
       substring_of valore (lower "SKY-BLUE.JPG"))
  ∧ ((∀ valore, valore ∈ values [("Color", "blue")] → valore = "") →
     "SKY-BLUE.JPG" ∈ keys (indice_file blue_photos) →
     "SKY-BLUE.JPG" ∉ file_rinominati blue_photos →
     "SKY-BLUE.JPG" ∈ trova_file_corrispondenti (items (indice_file blue_photos))
                  (file_rinominati blue_photos) (values [("Color", "blue")]))).
Proof.
  split.
  - apply initial_store_lower_cached.
  - apply (matcher_selects_iff_all_values_occur [("Color", "blue")]
             blue_photos "SKY-BLUE.JPG").
    apply initial_store_lower_cached.
Defined.

Lemma rows_consume_disjoint_files_witness :
  let righe := [(0%nat, riga_A); (1%nat, riga_B)] in
  let st1 := (process_row guess_columns folder 0 riga_A st0).2 in
  (0 < 1)%nat
  ∧ righe !! 0%nat = Some (0%nat, riga_A)
  ∧ righe !! 1%nat = Some (1%nat, riga_B)
  ∧ stores_before guess_columns folder righe st0 !! 0%nat = Some st0
  ∧ stores_before guess_columns folder righe st0 !! 1%nat = Some st1
  ∧ "red-shoe.jpg" ∈ renamed_by_row guess_columns folder (0%nat, riga_A) st0
  ∧ ("red-shoe.jpg" ∉ keys (indice_file st1))
  ∧ ("red-shoe.jpg" ∉ file_corrispondenti guess_columns riga_B st1)
  ∧ ("red-shoe.jpg" ∉ renamed_by_row guess_columns folder (1%nat, riga_B) st1).
Proof.
  intros righe st1.
  assert ("red-shoe.jpg"
          ∈ renamed_by_row guess_columns folder (0%nat, riga_A) st0) as Hin.
  { apply (bool_decide_unpack _). vm_compute. exact I. }
  split; [lia|]. do 4 (split; [reflexivity|]). split; [exact Hin|].
  exact (rows_consume_disjoint_files guess_columns folder righe st0 0 1
           (0%nat, riga_A) (1%nat, riga_B) st0 st1
           ltac:(lia) eq_refl eq_refl eq_refl eq_refl "red-shoe.jpg" Hin).
Defined.

Lemma unmatched_rows_are_tallied_and_reported_witness :
  get "guess" BRAND_COLUMN_MAPPINGS = Some guess_columns
  ∧ Disk.listdir folder (Disk.makedirs "./pe25/reports" red_shoes)
    = Some ["red-shoe.jpg"; "red-shoe-2.jpg"; "notes.txt"]
  ∧ forallb (sheet_ok guess_columns) [foglio [riga_A; riga_B]] = true
  ∧ ∃ conteggio st report,
      run (Some [foglio [riga_A; riga_B]]) red_shoes
        = Completed conteggio st report
      ∧ length (ean_non_trovati st) = 1%nat
      ∧ length (codeno st) = 1%nat
      ∧ ∃ r, report = Written r
             ∧ report_rows r
               = [["2"; "222"; "2025-03-01 10:00:00"; ""; ""; "red"]].
Proof.
  split; [reflexivity|]. split; [reflexivity|]. split; [reflexivity|].
  destruct (@unmatched_rows_are_tallied_and_reported Disk.platform
              "pe25" "guess" [foglio [riga_A; riga_B]] red_shoes
              guess_columns ["red-shoe.jpg"; "red-shoe-2.jpg"; "notes.txt"]
              eq_refl eq_refl eq_refl)
    as (conteggio & st & report & Hrun & He & Hno & _ & _ & Hw & _).
  exists conteggio, st, report. split; [exact Hrun|].
  split; [exact He|]. split; [exact Hno|].
  destruct (proj2 Hw) as [r Hr]; [vm_compute; lia|].
  exists r. split; [exact Hr|].
  unfold run in Hrun. rewrite Hr in Hrun.
  vm_compute in Hrun. injection Hrun as _ _ <-. reflexivity.
Defined.

Lemma report_record_keeps_raw_cells_witness :
  get "guess" BRAND_COLUMN_MAPPINGS = Some guess_columns
  ∧ unmatched_in guess_columns (riga " Green " "333") st0 = true
  ∧ "Color" ∈ guess_columns
  ∧ get "Color" (info_of_row guess_columns 4 (riga " Green " "333") st0)
    = Some (PyStr " Green ")
  ∧ get "Color" (estrai_valori guess_columns (riga " Green " "333") [])
    = Some "green"
  ∧ get "Model" (info_of_row guess_columns 4 (riga " Green " "333") st0)
    = None.
Proof.
  assert ("Color" ∈ guess_columns) as Hcolor
    by (apply (bool_decide_unpack _); vm_compute; exact I).
  assert ("Model" ∈ guess_columns) as Hmodel
    by (apply (bool_decide_unpack _); vm_compute; exact I).
  split; [reflexivity|]. split; [vm_compute; reflexivity|].
  split; [exact Hcolor|].
  destruct (report_record_keeps_raw_cells "guess" guess_columns folder 4
              (riga " Green " "333") st0 "Color" eq_refl eq_refl Hcolor)
    as (_ & Hpresent & _).
  destruct (Hpresent " Green " eq_refl) as [Hraw Hval].
  split; [exact Hraw|]. split; [exact Hval|].
  destruct (report_record_keeps_raw_cells "guess" guess_columns folder 4
              (riga " Green " "333") st0 "Model" eq_refl eq_refl Hmodel)
    as (_ & _ & Hmissing).
  apply Hmissing. reflexivity.
Defined.

(** * Further properties of the script *)

(** * More on dictionaries *)

Lemma set_absent {V : Type} (k : string) (v : V) (d : dict V) :
  k ∉ keys d → set k v d = d ++ [(k, v)].
Proof.
  induction d as [|[k0 v0] d IH]; simpl; [done|].
  intros [Hne Hk]%not_elem_of_cons. rewrite decide_False by done.
  by rewrite IH.
Qed.

Lemma length_without_present {V : Type} (k : string) (d : dict V) :
  NoDup (keys d) → k ∈ keys d → S (length (without k d)) = length d.
Proof.
  unfold without, keys. induction d as [|[k0 v0] d IH]; simpl.
  - by intros _ ?%elem_of_nil.
  - intros [Hnotin Hnd]%NoDup_cons Hin. rewrite filter_cons. simpl.
    destruct (decide (k0 = k)) as [->|Hne].
    + rewrite decide_False by (intros Hk; by apply Hk).
      f_equal. change (filter (λ kv : string * V, kv.1 ≠ k) d)
        with (without k d).
      by rewrite without_absent.
    + rewrite decide_True by done. simpl. f_equal. apply IH; [done|].
      apply elem_of_cons in Hin as [->|Hin]; [done | done].
Qed.

Lemma NoDup_keys_without_all {V : Type} (ks : list string) (d : dict V) :
  NoDup (keys d) → NoDup (keys (without_all ks d)).
Proof.
  unfold without_all. revert d. induction ks as [|k ks IH]; intros d Hnd; [done|].
  simpl. apply IH. by apply NoDup_keys_without.
Qed.

(** Removing distinct keys of a dictionary shortens it by their number. *)
Lemma length_without_all {V : Type} (ks : list string) (d : dict V) :
  NoDup (keys d) → NoDup ks → (∀ k, k ∈ ks → k ∈ keys d) →
  (length (without_all ks d) + length ks = length d)%nat.
Proof.
  unfold without_all. revert d.
  induction ks as [|k ks IH]; intros d Hnd Hks Hin; simpl; [lia|].
  apply NoDup_cons in Hks as [Hk Hks].
  rewrite <- (length_without_present k d) by (auto; apply Hin; left).
  rewrite <- (IH (without k d)); [lia | by apply NoDup_keys_without | done |].
  intros k' Hk'. apply keys_without. split; [apply Hin; by right|].
  intros ->. done.
Qed.

Lemma renamed_files_app (l k : list RenameCall) :
  renamed_files (l ++ k) = renamed_files l ++ renamed_files k.
Proof. unfold renamed_files. by rewrite filter_app, fmap_app. Qed.

Lemma renamed_files_sublist (calls : list RenameCall) :
  sublist (renamed_files calls) (call_file <$> calls).
Proof. unfold renamed_files. apply fmap_sublist, sublist_filter. Qed.

(** The matcher keeps the entries that pass its two tests, in the order
    of the index. *)
Lemma trova_file_corrispondenti_filter (voci : list (string * string))
    (rinominati : gset string) (valori : list string) :
  trova_file_corrispondenti voci rinominati valori
  = (filter (λ kv, (kv.1 ∉ rinominati) ∧ tutti_presenti valori kv.2 = true)
       voci).*1.
Proof.
  induction voci as [|[f low] voci IH]; simpl; [done|].
  rewrite filter_cons. simpl. case_bool_decide as Hren.
  - rewrite decide_False by tauto. done.
  - destruct (tutti_presenti valori low) eqn:Hlow.
    + rewrite decide_True by done. simpl. by rewrite IH.
    + rewrite decide_False by (intros [_ ?]; congruence). done.
Qed.

Section RunInvariant.
Context `{Platform}.
Implicit Types (st : Store) (riga : Series).

Lemma file_corrispondenti_sublist cols riga st :
  sublist (file_corrispondenti cols riga st) (keys (indice_file st)).
Proof.
  unfold file_corrispondenti. rewrite trova_file_corrispondenti_filter.
  unfold keys, items. apply fmap_sublist, sublist_filter.
Qed.

(** The calls a row makes, and the count it returns. *)
Lemma process_row_calls cols folder idx riga st :
  let r := process_row cols folder idx riga st in
  let calls := new_calls st r.2 in
  sublist (call_file <$> calls) (keys (indice_file st))
  ∧ r.1 = length (renamed_files calls).
Proof.
  destruct (present_cell EAN_COLUMN riga) as [testo|] eqn:Hean.
  - destruct (decide (file_corrispondenti cols riga st = [])) as [Hnil|Hne].
    + rewrite (process_row_not_found _ _ _ _ _ _ Hean Hnil). simpl.
      unfold new_calls. simpl. rewrite drop_all. simpl.
      split; [apply sublist_nil_l | done].
    + rewrite (process_row_found _ _ _ _ _ _ Hean Hne).
      destruct (rename_files_spec (file_corrispondenti cols riga st)
                  (strip testo) folder (append_codesi (strip testo) st))
        as (_ & Hf & _ & Hn & _).
      simpl in *.
      set (st' := (rename_files _ _ _ _).2) in *.
      assert (new_calls st st' = new_calls (append_codesi (strip testo) st) st')
        as -> by done.
      rewrite Hf, Hn. split; [apply file_corrispondenti_sublist|].
      unfold renamed_files. by rewrite length_fmap.
  - rewrite (process_row_skip _ _ _ _ _ Hean). simpl.
    unfold new_calls. rewrite drop_all. simpl.
    split; [apply sublist_nil_l | done].
Qed.

(** A row keeps the invariant of the run, and what it renames is what
    the index loses. *)
Lemma process_row_invariant cols folder idx riga st :
  run_invariant st →
  let r := process_row cols folder idx riga st in
  run_invariant r.2
  ∧ (r.1 + length (indice_file r.2) = length (indice_file st))%nat
  ∧ r.1 = length (renamed_files (new_calls st r.2)).
Proof.
  intros (Hnd & Hlow & Hdisj & Hndr & Hfr) r.
  destruct (process_row_spec cols folder idx riga st) as (Hc & _ & Hr & Hi).
  destruct (process_row_calls cols folder idx riga st) as (Hsub & Hn).
  fold r in Hc, Hr, Hi, Hsub, Hn.
  set (calls := new_calls st r.2) in *.
  assert (sublist (renamed_files calls) (keys (indice_file st))) as Hsub'.
  { etrans; [apply renamed_files_sublist | done]. }
  assert (NoDup (renamed_files calls)) as Hnd'
    by (eapply sublist_NoDup; [exact Hnd | exact Hsub']).
  split_and!.
  - unfold run_invariant. rewrite Hi, Hc, renamed_files_app. split_and!.
    + by apply NoDup_keys_without_all.
    + by apply lower_cached_without_all.
    + intros f [Hk Hnot]%keys_without_all. rewrite Hr.
      rewrite not_elem_of_union, elem_of_list_to_set. auto.
    + apply NoDup_app. split_and!; [done | | done].
      intros f Hf%Hfr Hin. eapply Hdisj; [|done].
      by eapply elem_of_sublist.
    + intros f. rewrite Hr, elem_of_union, elem_of_list_to_set, elem_of_app.
      by rewrite Hfr.
  - rewrite Hi, Hn. rewrite Nat.add_comm. apply length_without_all; [done..|].
    intros k Hk. by eapply elem_of_sublist.
  - done.
Qed.

End RunInvariant.

Section RunFacts.
Context `{Platform}.
Implicit Types (st : Store) (riga : Series).

Lemma initial_store_invariant (tutti_file : list string) (o : OS) :
  run_invariant (initial_store tutti_file o).
Proof.
  destruct (build_index_spec (file_jpg tutti_file)) as (Hlow & Hnd & _).
  unfold run_invariant. simpl. split_and!; [done | done | | |].
  - intros f _. apply not_elem_of_empty.
  - unfold renamed_files. simpl. apply NoDup_nil_2.
  - intros f. unfold renamed_files. simpl. rewrite elem_of_nil.
    split; [by intros ?%not_elem_of_empty | done].
Qed.

(** A sequence of rows keeps the invariant; the count it adds is the
    number of successful calls it makes and the number of entries the
    index loses. *)
Lemma process_rows_invariant cols folder righe :
  ∀ renamed st,
  run_invariant st →
  let r := process_rows cols folder righe renamed st in
  run_invariant r.2
  ∧ (r.1 + length (indice_file r.2) = renamed + length (indice_file st))%nat
  ∧ ∃ calls, rename_calls r.2 = rename_calls st ++ calls
             ∧ r.1 = (renamed + length (renamed_files calls))%nat.
Proof.
  induction righe as [|[idx riga] righe IH]; intros renamed st Hinv; simpl.
  - split_and!; [done..|]. exists []. rewrite app_nil_r.
    unfold renamed_files. simpl. split; [done | lia].
  - destruct (process_row_invariant cols folder idx riga st Hinv)
      as (Hinv1 & Hlen1 & Hn1).
    destruct (process_row_spec cols folder idx riga st) as (Hc1 & _).
    destruct (process_row cols folder idx riga st) as [n st1]. simpl in *.
    destruct (IH (renamed + n)%nat st1 Hinv1) as (Hinv2 & Hlen2 & calls & Hc2 & Hn2).
    split_and!; [done | lia |].
    exists (new_calls st st1 ++ calls).
    rewrite Hc2, Hc1, <- app_assoc, renamed_files_app, length_app.
    split; [done | lia].
Qed.

Lemma process_sheets_invariant cols folder fogli :
  ∀ n st,
  run_invariant st →
  let r := process_sheets fogli cols folder n st in
  run_invariant r.2
  ∧ ∀ m, r.1 = Returned m →
      (m + length (indice_file r.2) = n + length (indice_file st))%nat
      ∧ ∃ calls, rename_calls r.2 = rename_calls st ++ calls
                 ∧ m = (n + length (renamed_files calls))%nat.
Proof.
  induction fogli as [|[df|] fogli IH]; intros n st Hinv; simpl.
  - split; [done|]. intros m [= <-]. split; [done|]. exists [].
    rewrite app_nil_r. unfold renamed_files. simpl. split; [done | lia].
  - destruct (columns_present cols df); [|by split].
    destruct (process_rows_invariant cols folder (iterrows df) 0%nat st Hinv)
      as (Hinv1 & Hlen1 & calls1 & Hc1 & Hn1).
    destruct (process_rows cols folder (iterrows df) 0 st) as [k st1].
    simpl in *.
    destruct (IH (n + k)%nat st1 Hinv1) as (Hinv2 & Hret).
    split; [done|]. intros m Hm.
    destruct (Hret m Hm) as (Hlen2 & calls2 & Hc2 & Hn2).
    split; [lia|]. exists (calls1 ++ calls2).
    rewrite Hc2, Hc1, <- app_assoc, renamed_files_app, length_app.
    split; [done | lia].
  - by split.
Qed.

(** What a completed run went through. *)
Lemma run_completed (season brand_name : string)
    (excel : option (list (option DataFrame))) (o : OS)
    (conteggio : nat) (st : Store) (report : report_result) :
  rinomina_foto_in_batch season brand_name excel o
    = Completed conteggio st report →
  let photo_folder := (setup_paths season brand_name).1.1 in
  let reports_folder := (setup_paths season brand_name).2 in
  let o1 := optimize_images_in_folder photo_folder
              (make_report_dir reports_folder o) in
  ∃ cols tutti_file fogli st1,
    get brand_name BRAND_COLUMN_MAPPINGS = Some cols
    ∧ os_listdir photo_folder o1 = Some tutti_file
    ∧ excel = Some fogli
    ∧ process_sheets fogli cols photo_folder 0 (initial_store tutti_file o1)
      = (Returned conteggio, st1)
    ∧ report = (make_report (ean_non_trovati st1) reports_folder brand_name
                  cols (os_state st1)).1
    ∧ st = set_os (make_report (ean_non_trovati st1) reports_folder
                     brand_name cols (os_state st1)).2 st1.
Proof.
  unfold rinomina_foto_in_batch.
  destruct (setup_paths season brand_name) as [[pf ef] rf]. cbn [fst snd].
  destruct (get brand_name BRAND_COLUMN_MAPPINGS) as [cols|]; [|done].
  destruct (os_listdir _ _) as [tutti_file|]; [|done].
  destruct excel as [fogli|]; [|done].
  destruct (process_sheets _ _ _ _ _) as [[m|[]] st1] eqn:Hps; [|done..].
  destruct (make_report _ _ _ _ _) as [rep o2] eqn:Hrep.
  intros [= <- <- <-]. exists cols, tutti_file, fogli, st1.
  by rewrite Hrep.
Qed.

End RunFacts.

(** * The index of a run, and what a run does to it *)

Lemma build_index_NoDup (files : list string) :
  NoDup files → keys (build_index files) = files.
Proof.
  unfold build_index.
  assert (∀ d : dict string,
    NoDup (keys d ++ files) →
    keys (foldl (λ d file, set file (lower file) d) d files)
    = keys d ++ files) as Hgen.
  { induction files as [|f files IH]; intros d Hnd; simpl.
    - by rewrite app_nil_r.
    - assert (f ∉ keys d) as Hf.
      { apply NoDup_app in Hnd as (_ & Hdisj & _). intros Hin.
        apply (Hdisj f Hin). left. }
      rewrite set_absent by done. rewrite IH.
      + unfold keys. rewrite fmap_app. simpl. by rewrite <- app_assoc.
      + unfold keys. rewrite fmap_app. simpl. by rewrite <- app_assoc. }
  intros Hnd. by rewrite (Hgen []).
Qed.

Lemma length_set {V : Type} (k : string) (v : V) (d : dict V) :
  length (set k v d) ≤ S (length d).
Proof.
  induction d as [|[k0 v0] d IH]; simpl; [lia|].
  case_decide; simpl; lia.
Qed.

Lemma length_build_index (files : list string) :
  length (build_index files) ≤ length files.
Proof.
  unfold build_index.
  assert (∀ d : dict string,
    length (foldl (λ d file, set file (lower file) d) d files)
    ≤ length d + length files) as Hgen.
  { induction files as [|f files IH]; intros d; simpl; [lia|].
    etrans; [apply IH|]. pose proof (length_set f (lower f) d). lia. }
  apply (Hgen []).
Qed.

Lemma get_lower_cached (d : dict string) (f : string) :
  lower_cached d → f ∈ keys d → get f d = Some (lower f).
Proof.
  intros Hlow Hin. destruct (get f d) as [low|] eqn:Hget.
  - apply get_Some_elem_of in Hget. by rewrite (Hlow _ _ Hget).
  - by apply get_None in Hget.
Qed.

Lemma keys_without_sublist {V : Type} (k : string) (d : dict V) :
  sublist (keys (without k d)) (keys d).
Proof. unfold keys, without. apply fmap_sublist, sublist_filter. Qed.

Lemma keys_without_all_sublist {V : Type} (ks : list string) (d : dict V) :
  sublist (keys (without_all ks d)) (keys d).
Proof.
  unfold without_all. revert d. induction ks as [|k ks IH]; intros d; [done|].
  simpl. etrans; [apply IH | apply keys_without_sublist].
Qed.

(** A renamed set that holds no name of the index does not change what
    the matcher finds. *)
Lemma trova_file_corrispondenti_disjoint (voci : list (string * string))
    (rinominati : gset string) (valori : list string) :
  (∀ f, f ∈ voci.*1 → f ∉ rinominati) →
  trova_file_corrispondenti voci rinominati valori
  = trova_file_corrispondenti voci ∅ valori.
Proof.
  induction voci as [|[f low] voci IH]; simpl; [done|]. intros Hdisj.
  rewrite bool_decide_eq_false_2 by (apply Hdisj; left).
  rewrite (bool_decide_eq_false_2 (f ∈ (∅ : gset string)))
    by apply not_elem_of_empty.
  rewrite IH by (intros g Hg; apply Hdisj; by right). done.
Qed.

Section IndexOfRun.
Context `{Platform}.
Implicit Types (st : Store) (riga : Series).

(** X1.  The index a run starts from holds exactly the names of the
    listing whose lowered form ends in [.jpg], each once and with its
    lowered form as value; it is no longer than the list of photos, and
    for a listing without repeated names its keys are the photos in the
    order of the listing. *)
Theorem index_holds_the_photos_of_the_listing (tutti_file : list string)
    (o : OS) :
  let indice := indice_file (initial_store tutti_file o) in
  (∀ f, f ∈ keys indice
        ↔ f ∈ tutti_file ∧ ∃ stem, lower f = stem +:+ FILE_EXTENSION)
  ∧ (∀ f, f ∈ keys indice → get f indice = Some (lower f))
  ∧ NoDup (keys indice)
  ∧ length indice ≤ length (file_jpg tutti_file)
  ∧ (NoDup tutti_file → keys indice = file_jpg tutti_file).
Proof.
  simpl. destruct (build_index_spec (file_jpg tutti_file)) as (Hlow & Hnd & Hk).
  split_and!.
  - intros f. rewrite Hk. apply file_jpg_spec.
  - intros f Hf. by apply get_lower_cached.
  - done.
  - apply length_build_index.
  - intros Hnd'. apply build_index_NoDup. unfold file_jpg.
    by apply NoDup_filter.
Qed.

Lemma stores_before_invariant cols folder righe st s :
  run_invariant st → s ∈ stores_before cols folder righe st →
  run_invariant s.
Proof.
  revert st. induction righe as [|[idx riga] righe IH]; intros st Hinv; simpl.
  - by intros ?%elem_of_nil.
  - intros [->|Hin]%elem_of_cons; [done|].
    eapply IH; [|done]. by apply process_row_invariant.
Qed.

Lemma stores_before_keys_sublist cols folder righe st s :
  s ∈ stores_before cols folder righe st →
  sublist (keys (indice_file s)) (keys (indice_file st)).
Proof.
  revert st. induction righe as [|[idx riga] righe IH]; intros st; simpl.
  - by intros ?%elem_of_nil.
  - intros [->|Hin]%elem_of_cons; [done|].
    etrans; [by apply IH|].
    destruct (process_row_spec cols folder idx riga st) as (_ & _ & _ & ->).
    apply keys_without_all_sublist.
Qed.

(** X2.  In every store a run goes through, no name of the index is in
    the renamed set and no renamed name is in the index, so the test
    [nome_file in file_rinominati] of the matcher never skips a file:
    matching gives the same list as with an empty renamed set. *)
Theorem renamed_set_test_never_fires (cols : list string) (folder : string)
    (righe : list (nat * Series)) (tutti_file : list string) (o : OS)
    (s : Store) :
  s ∈ stores_before cols folder righe (initial_store tutti_file o) →
  (∀ f, f ∈ keys (indice_file s) → f ∉ file_rinominati s)
  ∧ (∀ f, f ∈ file_rinominati s → f ∉ keys (indice_file s))
  ∧ ∀ valori,
      trova_file_corrispondenti (items (indice_file s)) (file_rinominati s)
        valori
      = trova_file_corrispondenti (items (indice_file s)) ∅ valori.
Proof.
  intros Hs.
  destruct (stores_before_invariant cols folder righe _ s
              (initial_store_invariant tutti_file o) Hs)
    as (_ & _ & Hdisj & _).
  split_and!; [done | intros f Hf Hk; by apply (Hdisj f) |].
  intros valori. by apply trova_file_corrispondenti_disjoint.
Qed.

(** X5.  In every store of a run the files a row matches are the
    names of the index that pass the substring test, in the order of
    the index and each once; the index keeps the order of the index
    the run started with, so for a listing without repeated names the
    matches, and the numeric suffixes they receive, follow the order
    of the listing. *)
Theorem matches_follow_the_listing_order (cols : list string)
    (folder : string) (righe : list (nat * Series))
    (tutti_file : list string) (o : OS) (s : Store) (riga : Series) :
  s ∈ stores_before cols folder righe (initial_store tutti_file o) →
  file_corrispondenti cols riga s
  = filter (λ f, tutti_presenti (values (estrai_valori cols riga []))
                   (lower f) = true)
      (keys (indice_file s))
  ∧ NoDup (file_corrispondenti cols riga s)
  ∧ sublist (keys (indice_file s))
      (keys (indice_file (initial_store tutti_file o)))
  ∧ (NoDup tutti_file →
     sublist (file_corrispondenti cols riga s) (file_jpg tutti_file)).
Proof.
  intros Hs.
  destruct (stores_before_invariant cols folder righe _ s
              (initial_store_invariant tutti_file o) Hs)
    as (Hnd & Hlow & Hdisj & _).
  pose proof (stores_before_keys_sublist cols folder righe _ s Hs) as Hsub.
  assert (file_corrispondenti cols riga s
          = filter (λ f, tutti_presenti (values (estrai_valori cols riga []))
                           (lower f) = true) (keys (indice_file s))) as Heq.
  { unfold file_corrispondenti.
    rewrite trova_file_corrispondenti_disjoint by done.
    generalize (values (estrai_valori cols riga [])). intros valori.
    unfold items, keys. revert Hlow.
    generalize (indice_file s). intros d Hlow.
    induction d as [|[f low] d IH]; simpl; [done|].
    rewrite (bool_decide_eq_false_2 (f ∈ (∅ : gset string)))
      by apply not_elem_of_empty.
    rewrite filter_cons. simpl.
    rewrite (Hlow f low) by left.
    rewrite IH by (intros g l Hg; apply Hlow; by right).
    destruct (tutti_presenti valori (lower f)) eqn:Hall.
    - by rewrite decide_True.
    - by rewrite decide_False by congruence. }
  split_and!; [done | | done |].
  - eapply sublist_NoDup; [exact Hnd | apply file_corrispondenti_sublist].
  - intros Hnd'. etrans; [apply file_corrispondenti_sublist|].
    etrans; [exact Hsub|]. simpl. by rewrite build_index_NoDup
      by (unfold file_jpg; by apply NoDup_filter).
Qed.

(** X6.  In every store of a run, a row whose attribute cells are all
    missing or blank after stripping matches every file left in the
    index, in the order of the index. *)
Theorem row_without_values_matches_every_file (cols : list string)
    (folder : string) (righe : list (nat * Series))
    (tutti_file : list string) (o : OS) (s : Store) (riga : Series) :
  s ∈ stores_before cols folder righe (initial_store tutti_file o) →
  (∀ colonna testo, colonna ∈ cols →
     present_cell colonna riga = Some testo → strip (lower testo) = "") →
  file_corrispondenti cols riga s = keys (indice_file s).
Proof.
  intros Hs Hblank.
  destruct (stores_before_invariant cols folder righe _ s
              (initial_store_invariant tutti_file o) Hs)
    as (_ & _ & Hdisj & _).
  unfold file_corrispondenti.
  rewrite trova_file_corrispondenti_disjoint by done.
  assert (∀ low, tutti_presenti (values (estrai_valori cols riga [])) low
                 = true) as Hall.
  { intros low. apply tutti_presenti_spec. intros valore Hin Hne.
    exfalso. apply Hne. unfold values in Hin.
    apply list_elem_of_fmap in Hin as ([c v] & -> & Hkv).
    apply elem_of_estrai_valori in Hkv as (Hcol & testo & Hcell & Hv).
    simpl in *. subst v. by eapply Hblank. }
  unfold items, keys. clear Hdisj Hs.
  induction (indice_file s) as [|[f low] d IH]; [done|].
  simpl. rewrite (bool_decide_eq_false_2 (f ∈ (∅ : gset string)))
    by apply not_elem_of_empty.
  rewrite Hall. f_equal. exact IH.
Qed.

End IndexOfRun.

Section Balance.
Context `{Platform}.
Implicit Types (st : Store) (riga : Series).

(** X3.  In a completed run the count of renamed files plus the number
    of entries left in the index is the number of entries the index
    started with; the count is the number of successful calls of
    [os.rename] and the size of the renamed set.  The figure
    [len(file_jpg) - conteggio_rinominati] that [print_results] shows
    is therefore never below the number of entries left, and equals it
    when the listing has no repeated name. *)
Theorem renamed_count_balances_the_index (season brand_name : string)
    (excel : option (list (option DataFrame))) (o : OS)
    (conteggio : nat) (st : Store) (report : report_result) :
  rinomina_foto_in_batch season brand_name excel o
    = Completed conteggio st report →
  let photo_folder := (setup_paths season brand_name).1.1 in
  let reports_folder := (setup_paths season brand_name).2 in
  let o1 := optimize_images_in_folder photo_folder
              (make_report_dir reports_folder o) in
  ∃ tutti_file,
    os_listdir photo_folder o1 = Some tutti_file
    ∧ (conteggio + length (indice_file st)
       = length (indice_file (initial_store tutti_file o1)))%nat
    ∧ conteggio = length (renamed_files (rename_calls st))
    ∧ conteggio = size (file_rinominati st)
    ∧ (Z.of_nat (length (indice_file st))
       ≤ (print_results conteggio (file_jpg tutti_file)).2)%Z
    ∧ (NoDup tutti_file →
       (print_results conteggio (file_jpg tutti_file)).2
       = Z.of_nat (length (indice_file st))).
Proof.
  intros Hrun photo_folder reports_folder o1.
  destruct (run_completed _ _ _ _ _ _ _ Hrun)
    as (cols & tutti_file & fogli & st1 & _ & Hls & _ & Hps & _ & ->).
  fold photo_folder reports_folder o1 in Hls, Hps.
  exists tutti_file. split; [done|].
  destruct (process_sheets_invariant cols photo_folder fogli 0%nat
              (initial_store tutti_file o1)
              (initial_store_invariant tutti_file o1)) as (Hinv & Hret).
  rewrite Hps in Hinv, Hret. simpl in Hinv, Hret.
  destruct (Hret conteggio eq_refl) as (Hlen & calls & Hc & Hn).
  destruct Hinv as (_ & _ & _ & Hndr & Hfr).
  assert (conteggio = length (renamed_files (rename_calls st1))) as Hcount.
  { rewrite Hc. simpl. lia. }
  assert (file_rinominati st1
          = list_to_set (renamed_files (rename_calls st1))) as Hset.
  { apply set_eq. intros f. by rewrite elem_of_list_to_set. }
  pose proof (length_build_index (file_jpg tutti_file)) as Hle.
  simpl in *. split_and!.
  - lia.
  - done.
  - rewrite Hset. rewrite size_list_to_set; [exact Hcount | exact Hndr].
  - lia.
  - intros Hnd.
    assert (length (build_index (file_jpg tutti_file))
            = length (file_jpg tutti_file)) as Heq.
    { trans (length (keys (build_index (file_jpg tutti_file)))).
      - unfold keys. by rewrite length_fmap.
      - rewrite build_index_NoDup; [done|].
        unfold file_jpg. by apply NoDup_filter. }
    lia.
Qed.

Lemma process_rows_calls_within (D : list string) cols folder righe :
  ∀ renamed st,
  sublist (keys (indice_file st)) D →
  (∀ c, c ∈ rename_calls st → call_file c ∈ D) →
  ∀ c, c ∈ rename_calls (process_rows cols folder righe renamed st).2 →
       call_file c ∈ D.
Proof.
  induction righe as [|[idx riga] righe IH]; intros renamed st Hsub Hold;
    simpl; [done|].
  destruct (process_row_spec cols folder idx riga st) as (Hc & _ & _ & Hi).
  destruct (process_row_calls cols folder idx riga st) as (Hcalls & _).
  destruct (process_row cols folder idx riga st) as [n st1]. simpl in *.
  apply IH.
  - rewrite Hi. etrans; [apply keys_without_all_sublist | done].
  - intros c. rewrite Hc, elem_of_app. intros [Hin|Hin]; [auto|].
    eapply elem_of_sublist; [|exact Hsub].
    eapply elem_of_sublist; [|exact Hcalls].
    apply list_elem_of_fmap. eauto.
Qed.

(** X4.  Whatever rows are processed from the index of a listing,
    every call of [os.rename] is made on a name of the listing whose
    lowered form ends in [.jpg]; no file is renamed twice, and a
    renamed file is no longer in the index. *)
Theorem only_listed_photos_are_renamed (cols : list string)
    (folder : string) (righe : list (nat * Series)) (renamed : nat)
    (tutti_file : list string) (o : OS) :
  let st := (process_rows cols folder righe renamed
               (initial_store tutti_file o)).2 in
  (∀ c, c ∈ rename_calls st →
     call_file c ∈ tutti_file
     ∧ ∃ stem, lower (call_file c) = stem +:+ FILE_EXTENSION)
  ∧ NoDup (renamed_files (rename_calls st))
  ∧ ∀ f, f ∈ renamed_files (rename_calls st) →
         f ∉ keys (indice_file st).
Proof.
  intros st.
  destruct (process_rows_invariant cols folder righe renamed
              (initial_store tutti_file o)
              (initial_store_invariant tutti_file o))
    as ((_ & _ & Hdisj & Hndr & Hfr) & _).
  fold st in Hdisj, Hndr, Hfr. split_and!; [|done|].
  - intros c Hc. apply file_jpg_spec.
    destruct (build_index_spec (file_jpg tutti_file)) as (_ & _ & Hk).
    apply Hk.
    apply (process_rows_calls_within (keys (build_index (file_jpg tutti_file)))
             cols folder righe renamed (initial_store tutti_file o));
      [done | by intros ? ?%elem_of_nil | done].
  - intros f Hf%Hfr Hk. by apply (Hdisj f).
Qed.

End Balance.

Section ReportRows.
Context `{Platform}.
Implicit Types (st : Store) (riga : Series).




(** X14.  Writing the report never raises on the records
    [process_sheet] builds, whatever the columns of the schema: every
    record has only keys that are field names, and its row has three
    fields more than the schema has columns. *)
Theorem report_writer_never_raises (cols : list string) (folder : string)
    (righe : list (nat * Series)) (renamed : nat) (st : Store)
    (reports_folder brand_name : string) :
  (∀ record k, record ∈ ean_non_trovati st → k ∈ keys record →
     k ∈ ["riga_excel"; "ean"; "data"] ++ cols) →
  let st' := (process_rows cols folder righe renamed st).2 in
  (make_report (ean_non_trovati st') reports_folder brand_name cols
     (os_state st')).1 ≠ WriteError
  ∧ ∀ record, record ∈ ean_non_trovati st' →
      ∃ campi, writerow (["riga_excel"; "ean"; "data"] ++ cols) record
               = Some campi
               ∧ length campi = (3 + length cols)%nat.
Proof.
  intros Hold st'.
  destruct (process_rows_unmatched cols folder righe renamed st) as [He _].
  fold st' in He.
  assert (∀ record k, record ∈ ean_non_trovati st' → k ∈ keys record →
            k ∈ reserved_keys ++ cols) as Hkeys.
  { intros record k Hrec Hk. rewrite He in Hrec.
    apply elem_of_app in Hrec as [Hrec|Hrec]; [by eapply Hold|].
    apply list_elem_of_fmap in Hrec as (u & -> & _).
    by apply keys_info_of_row in Hk. }
  split.
  - destruct (ean_non_trovati st') as [|record rest] eqn:Hrecs.
    + by rewrite make_report_empty.
    + destruct (make_report_written (record :: rest) reports_folder
                  brand_name cols (os_state st')) as (r & -> & _); done.
  - intros record Hrec. exists (fields_of (reserved_keys ++ cols) record).
    split.
    + apply writerow_Some. intros k Hk. by eapply Hkeys.
    + unfold fields_of. rewrite length_map, length_app. done.
Qed.

End ReportRows.

Section Aborts.
Context `{Platform}.
Implicit Types (st : Store) (riga : Series).

(** The sheets before the first one that cannot be processed are gone
    through; the sheet itself and those after it are not. *)
Lemma process_sheets_stops cols folder (dfs : list DataFrame)
    (bad : option DataFrame) (rest : list (option DataFrame)) :
  Forall (λ df, columns_present cols df = true) dfs →
  sheet_ok cols bad = false →
  ∀ n st,
  process_sheets ((Some <$> dfs) ++ bad :: rest) cols folder n st
  = (Raised (if bad is Some _ then SystemExit else ReadError),
     (process_rows cols folder (concat (iterrows <$> dfs)) 0 st).2).
Proof.
  intros Hgood Hbad. induction Hgood as [|df dfs Hdf _ IH]; intros n st; simpl.
  - destruct bad as [df|]; simpl in *; [by rewrite Hbad | done].
  - rewrite Hdf. rewrite process_rows_app.
    destruct (process_rows cols folder (iterrows df) 0 st) as [k st1].
    simpl. rewrite IH. f_equal. apply process_rows_store.
Qed.

(** X16.  Rows without an EAN change nothing: a sequence of rows
    whose EAN cells are all missing leaves the store and the count as
    they were, and none of them is valid or unmatched. *)
Theorem rows_without_ean_change_nothing (cols : list string)
    (folder : string) (righe : list (nat * Series)) (renamed : nat)
    (st : Store) :
  (∀ r, r ∈ righe → present_cell EAN_COLUMN r.2 = None) →
  process_rows cols folder righe renamed st = (renamed, st)
  ∧ unmatched_rows cols folder righe st = []
  ∧ valid_rows righe = [].
Proof.
  revert renamed st. induction righe as [|[idx riga] righe IH];
    intros renamed st Hno.
  - done.
  - assert (present_cell EAN_COLUMN riga = None) as Hean
      by (apply (Hno (idx, riga)); left).
    destruct (IH (renamed + 0)%nat st) as (Hrows & Hun & Hval).
    { intros r Hr. apply Hno. by right. }
    split_and!.
    + simpl. rewrite (process_row_skip _ _ _ _ _ Hean). rewrite Hrows.
      f_equal. lia.
    + rewrite unmatched_rows_cons, (process_row_skip _ _ _ _ _ Hean).
      simpl. rewrite Hun. unfold unmatched_in. by rewrite Hean.
    + unfold valid_rows in *. rewrite filter_cons. simpl. rewrite Hean.
      rewrite decide_False by (by intros [? ?]). done.
Qed.

(** X7.  Two rows whose attribute cells agree once lowered and
    stripped give the same matching values and match the same files in
    the same order: the case of the cell text and the blanks around it
    play no part. *)
Theorem matching_ignores_case_and_outer_blanks (cols : list string)
    (riga1 riga2 : Series) (st : Store) :
  (∀ colonna, colonna ∈ cols →
     (λ testo, strip (lower testo)) <$> present_cell colonna riga1
     = (λ testo, strip (lower testo)) <$> present_cell colonna riga2) →
  estrai_valori cols riga1 [] = estrai_valori cols riga2 []
  ∧ file_corrispondenti cols riga1 st = file_corrispondenti cols riga2 st.
Proof.
  intros Hsame.
  assert (∀ valori, estrai_valori cols riga1 valori
                    = estrai_valori cols riga2 valori) as Heq.
  { induction cols as [|c cols IH]; intros valori; simpl; [done|].
    pose proof (Hsame c (list_elem_of_here _ _)) as Hc.
    destruct (present_cell c riga1) as [t1|], (present_cell c riga2) as [t2|];
      simpl in Hc; try discriminate.
    - injection Hc as ->. apply IH. intros c' Hc'. apply Hsame. by right.
    - apply IH. intros c' Hc'. apply Hsame. by right. }
  split; [apply Heq|]. unfold file_corrispondenti. by rewrite Heq.
Qed.

End Aborts.

(** * Names and paths *)

Lemma lower_app (s t : string) : lower (s +:+ t) = lower s +:+ lower t.
Proof.
  induction s as [|c s IH]; [done|].
  rewrite str_app_cons. simpl. by rewrite IH.
Qed.

(** A lowered name splits where the name does. *)
Lemma lower_app_inv (f a b : string) :
  lower f = a +:+ b → ∃ x y, f = x +:+ y ∧ lower x = a ∧ lower y = b.
Proof.
  revert f. induction a as [|c a IH]; intros f Hf.
  - by exists "", f.
  - rewrite str_app_cons in Hf. destruct f as [|c' f]; [done|].
    simpl in Hf. injection Hf as Hc Hf.
    destruct (IH f Hf) as (x & y & -> & <- & <-).
    exists (String c' x), y. rewrite str_app_cons. simpl. by rewrite Hc.
Qed.

Lemma lower_char_dot (c : ascii) : lower_char c = extsep → c = extsep.
Proof.
  destruct c as [[] [] [] [] [] [] [] []]; vm_compute; congruence.
Qed.

Lemma lower_char_sep (c : ascii) : lower_char c = sep → c = sep.
Proof.
  destruct c as [[] [] [] [] [] [] [] []]; vm_compute; congruence.
Qed.

(** The last four characters of a photo's name: a dot and three
    characters that are neither dots nor slashes. *)
Lemma lower_jpg (ext : string) :
  lower ext = FILE_EXTENSION →
  ∃ e, ext = String extsep e
       ∧ has_char extsep e = false ∧ has_char sep e = false.
Proof.
  destruct ext as [|c1 [|c2 [|c3 [|c4 [|c5 ext]]]]]; try done.
  simpl. intros [= H1 H2 H3 H4]. apply lower_char_dot in H1 as ->.
  exists (String c2 (String c3 (String c4 ""))). split; [done|].
  assert (∀ c k, lower_char c = k → k ≠ extsep → k ≠ sep →
            Ascii.eqb c extsep = false ∧ Ascii.eqb c sep = false) as Hne.
  { intros c k Hk Hdot Hsep. split; apply Ascii.eqb_neq; intros ->.
    - apply Hdot. rewrite <- Hk. reflexivity.
    - apply Hsep. rewrite <- Hk. reflexivity. }
  destruct (Hne c2 _ H2) as [D2 S2]; [done..|].
  destruct (Hne c3 _ H3) as [D3 S3]; [done..|].
  destruct (Hne c4 _ H4) as [D4 S4]; [done..|].
  simpl. by rewrite D2, D3, D4, S2, S3, S4.
Qed.

Lemma has_non_dot_prefix (s t : string) :
  has_non_dot (s +:+ t) (String.length s) = has_non_dot s (String.length s).
Proof.
  induction s as [|a s IH]; [by destruct t|].
  rewrite str_app_cons. simpl. by rewrite IH.
Qed.

(** [splitext] on a name without [/] that ends in a dot and an
    extension without dots. *)
Lemma splitext_file_name (stem e : string) :
  has_char sep stem = false → has_char sep e = false →
  has_char extsep e = false →
  splitext (stem +:+ String extsep e)
  = if has_non_dot stem (String.length stem)
    then (stem, String extsep e)
    else (stem +:+ String extsep e, "").
Proof.
  intros Hsep_stem Hsep_e Hdot_e. unfold splitext, rfind.
  rewrite (rfind_from_absent sep)
    by (rewrite has_char_app; simpl; by rewrite Hsep_stem, Hsep_e).
  rewrite rfind_from_last by done.
  replace (Z.to_nat (-1 + 1)) with 0%nat by lia.
  replace (Z.to_nat (0 + Z.of_nat (String.length stem) - (-1 + 1)))
    with (String.length stem) by lia.
  replace (Z.to_nat (0 + Z.of_nat (String.length stem)))
    with (String.length stem) by lia.
  assert (slice_from 0 (stem +:+ String extsep e) = stem +:+ String extsep e)
    as -> by (by destruct (stem +:+ String extsep e)).
  rewrite has_non_dot_prefix, slice_to_app, slice_from_app.
  assert ((-1 <? 0 + Z.of_nat (String.length stem))%Z = true) as ->
    by (apply Z.ltb_lt; lia).
  done.
Qed.

(** X10.  A name without [/] whose lowered form ends in [.jpg] splits
    into a stem and a four-character extension that lowers to [.jpg];
    the new name is [ean-i] followed by that extension with its case
    kept, unless the stem has no character other than dots, in which
    case the new name has no extension. *)
Theorem photo_keeps_its_extension (ean : string) (i : nat) (f : string) :
  endswith (lower f) FILE_EXTENSION = true →
  has_char sep f = false →
  ∃ stem ext,
    f = stem +:+ ext
    ∧ lower ext = FILE_EXTENSION
    ∧ nuovo_nome ean i f
      = ean +:+ "-" +:+ str_of_nat i
        +:+ (if has_non_dot stem (String.length stem) then ext else "").
Proof.
  intros [a Ha]%endswith_spec Hsep.
  destruct (lower_app_inv f a FILE_EXTENSION Ha) as (stem & ext & -> & _ & Hext).
  exists stem, ext. split_and!; [done..|].
  destruct (lower_jpg ext Hext) as (e & -> & Hdot_e & Hsep_e).
  rewrite has_char_app in Hsep. apply orb_false_iff in Hsep as [Hsep_stem _].
  unfold nuovo_nome. rewrite splitext_file_name by done.
  by destruct (has_non_dot stem (String.length stem)).
Qed.

(** Decimal numerals hold no dot. *)
Lemma pretty_N_go_no_dot (x : N) (s : string) :
  has_char extsep (pretty_N_go x s) = has_char extsep s.
Proof.
  revert s. induction (N.lt_wf_0 x) as [x _ IH]; intros s.
  assert (x = 0 ∨ 0 < x)%N as [->|Hx] by lia.
  - by rewrite pretty_N_go_0.
  - rewrite pretty_N_go_step by done. rewrite IH by (by apply N.div_lt).
    simpl. unfold pretty_N_char. by repeat case_match.
Qed.

Lemma str_of_nat_no_dot (i : nat) : has_char extsep (str_of_nat i) = false.
Proof.
  unfold str_of_nat, pretty, pretty_nat, pretty, pretty_N.
  case_decide; [done|]. by rewrite pretty_N_go_no_dot.
Qed.

(** [rfind] returns [last] or the offset of an occurrence. *)
Lemma rfind_from_spec (c : ascii) (s : string) (i last : Z) :
  rfind_from c s i last = last
  ∨ (i ≤ rfind_from c s i last)%Z
    ∧ ∃ e, slice_from (Z.to_nat (rfind_from c s i last - i)) s = String c e.
Proof.
  revert i last. induction s as [|a s IH]; intros i last; simpl; [by left|].
  destruct (IH (i + 1)%Z (if Ascii.eqb a c then i else last))
    as [Heq|(Hle & e & He)].
  - rewrite Heq. destruct (Ascii.eqb a c) eqn:Hac; [|by left].
    apply Ascii.eqb_eq in Hac as ->. right. split; [lia|].
    exists s. by replace (Z.to_nat (i - i)) with 0%nat by lia.
  - right. split; [lia|]. exists e.
    set (r := rfind_from c s (i + 1) _) in *.
    replace (Z.to_nat (r - i)) with (S (Z.to_nat (r - (i + 1)))) by lia.
    done.
Qed.

(** An extension is empty or starts with a dot. *)
Lemma splitext_ext_shape (p : string) :
  (splitext p).2 = "" ∨ ∃ e, (splitext p).2 = String extsep e.
Proof.
  unfold splitext.
  destruct (_ && _) eqn:Hcond; simpl; [|by left].
  apply andb_true_iff in Hcond as [Hlt%Z.ltb_lt _]. right.
  unfold rfind in *.
  destruct (rfind_from_spec sep p 0 (-1)) as [Hs|[Hs _]];
    destruct (rfind_from_spec extsep p 0 (-1)) as [Hd|(_ & e & He)];
    try lia.
  - exists e. by rewrite Z.sub_0_r in He.
  - exists e. by rewrite Z.sub_0_r in He.
Qed.

(** A numeral followed by an extension can be read in one way only. *)
Lemma numeral_ext_inj (d1 d2 e1 e2 : string) :
  has_char extsep d1 = false → has_char extsep d2 = false →
  (e1 = "" ∨ ∃ e, e1 = String extsep e) →
  (e2 = "" ∨ ∃ e, e2 = String extsep e) →
  d1 +:+ e1 = d2 +:+ e2 → d1 = d2.
Proof.
  revert d2. induction d1 as [|a d1 IH]; intros [|b d2] H1 H2 He1 He2 Heq;
    simpl in *.
  - done.
  - rewrite str_app_nil_l, str_app_cons in Heq.
    apply orb_false_iff in H2 as [Hb _].
    destruct He1 as [->|[e ->]]; [done|]. injection Heq as <- _.
    by rewrite Ascii.eqb_refl in Hb.
  - rewrite str_app_nil_l, str_app_cons in Heq.
    apply orb_false_iff in H1 as [Ha _].
    destruct He2 as [->|[e ->]]; [done|]. injection Heq as -> _.
    by rewrite Ascii.eqb_refl in Ha.
  - rewrite !str_app_cons in Heq. injection Heq as -> Heq.
    apply orb_false_iff in H1 as [_ H1].
    apply orb_false_iff in H2 as [_ H2].
    f_equal. by apply (IH d2).
Qed.

Lemma nuovo_nome_inj (ean : string) (i j : nat) (f g : string) :
  nuovo_nome ean i f = nuovo_nome ean j g → i = j.
Proof.
  unfold nuovo_nome. intros Heq.
  apply (inj (String.app ean)) in Heq. apply (inj (String.app "-")) in Heq.
  apply (inj pretty).
  apply (numeral_ext_inj _ _ (splitext f).2 (splitext g).2);
    [apply str_of_nat_no_dot | apply str_of_nat_no_dot
    | apply splitext_ext_shape | apply splitext_ext_shape | exact Heq].
Qed.

Lemma NoDup_imap_inj {A B : Type} (h : nat → A → B) (l : list A) :
  (∀ i j x y, h i x = h j y → i = j) → NoDup (imap h l).
Proof.
  revert h. induction l as [|x l IH]; intros h Hinj; simpl.
  - apply NoDup_nil_2.
  - apply NoDup_cons. split.
    + intros (i & y & Heq & _)%elem_of_lookup_imap.
      apply Hinj in Heq. discriminate.
    + apply IH. intros i j a b Heq. apply Hinj in Heq. lia.
Qed.

Section Targets.
Context `{Platform}.

(** X11.  The targets of the calls [rename_files] makes for one batch
    are pairwise distinct: two files of a batch never receive the same
    new name. *)
Theorem targets_of_a_batch_are_distinct (files : list string)
    (ean photo_folder : string) (st : Store) :
  let calls := new_calls st (rename_files files ean photo_folder st).2 in
  NoDup (call_target <$> calls)
  ∧ ∀ (i j : nat) (c1 c2 : RenameCall),
      calls !! i = Some c1 → calls !! j = Some c2 →
      call_target c1 = call_target c2 → i = j.
Proof.
  intros calls.
  destruct (rename_files_spec files ean photo_folder st) as (_ & _ & Ht & _).
  fold calls in Ht.
  assert (NoDup (call_target <$> calls)) as Hnd.
  { rewrite Ht. apply NoDup_imap_inj. intros i j x y. apply nuovo_nome_inj. }
  split; [done|]. intros i j c1 c2 H1 H2 Heq.
  eapply (NoDup_lookup (call_target <$> calls)); [done | |].
  - by rewrite list_lookup_fmap, H1.
  - by rewrite list_lookup_fmap, H2, Heq.
Qed.

End Targets.

(** X12.  The photo folder of [setup_paths] ends in [/], so for a
    file name that does not start with [/] the path renamed is the
    folder followed by the name; the target is the folder followed by
    the new name when the EAN does not start with [/], and is the new
    name alone, outside the folder, when it does. *)
Theorem renames_stay_in_the_photo_folder (season brand_name ean : string)
    (i : nat) (vecchio_nome : string) :
  let photo_folder := (setup_paths season brand_name).1.1 in
  startswith vecchio_nome "/" = false →
  photo_folder = "./" +:+ season +:+ "/photoes/" +:+ brand_name +:+ "/"
  ∧ path_join photo_folder vecchio_nome = photo_folder +:+ vecchio_nome
  ∧ (startswith ean "/" = false →
     path_join photo_folder (nuovo_nome ean i vecchio_nome)
     = photo_folder +:+ nuovo_nome ean i vecchio_nome)
  ∧ (startswith ean "/" = true →
     path_join photo_folder (nuovo_nome ean i vecchio_nome)
     = nuovo_nome ean i vecchio_nome).
Proof.
  intros photo_folder Hname.
  assert (photo_folder
          = "./" +:+ season +:+ "/photoes/" +:+ brand_name +:+ "/") as Hpf.
  { unfold photo_folder, setup_paths, DEFAULT_PHOTOS_SUBDIR. simpl.
    by rewrite !str_app_assoc. }
  assert (endswith photo_folder "/" = true) as Hend.
  { apply endswith_spec.
    exists ("./" +:+ season +:+ "/photoes/" +:+ brand_name).
    rewrite Hpf. by rewrite !str_app_assoc. }
  assert (∀ b, startswith b "/" = false →
            path_join photo_folder b = photo_folder +:+ b) as Hjoin.
  { intros b Hb. unfold path_join, sep. rewrite Hb, Hend.
    by rewrite orb_true_r. }
  split_and!; [done | by apply Hjoin | |].
  - intros Hean. apply Hjoin. unfold nuovo_nome.
    destruct ean as [|c ean]; [done|]. rewrite str_app_cons. exact Hean.
  - intros Hean. unfold path_join, sep.
    assert (startswith (nuovo_nome ean i vecchio_nome) "/" = true) as ->; [|done].
    unfold nuovo_nome. destruct ean as [|c ean]; [done|].
    rewrite str_app_cons. exact Hean.
Qed.

(** * How matches shrink *)

Lemma tutti_presenti_mono (valori1 valori2 : list string) (low : string) :
  (∀ v, v ∈ valori1 → v ∈ valori2) →
  tutti_presenti valori2 low = true → tutti_presenti valori1 low = true.
Proof.
  rewrite !tutti_presenti_spec. intros Hsub Hall v Hv. apply Hall. auto.
Qed.

(** X8.  Matching against more values keeps fewer files: when
    every value of one list is in another, the files matched with the
    larger list form a sublist of those matched with the smaller. *)
Theorem more_values_match_fewer_files (voci : list (string * string))
    (rinominati : gset string) (valori1 valori2 : list string) :
  (∀ v, v ∈ valori1 → v ∈ valori2) →
  sublist (trova_file_corrispondenti voci rinominati valori2)
          (trova_file_corrispondenti voci rinominati valori1).
Proof.
  intros Hsub. induction voci as [|[f low] voci IH]; simpl; [done|].
  case_bool_decide; [done|].
  destruct (tutti_presenti valori2 low) eqn:H2.
  - rewrite (tutti_presenti_mono valori1 valori2 low Hsub H2).
    by apply sublist_skip.
  - destruct (tutti_presenti valori1 low); [by apply sublist_cons | done].
Qed.

Lemma without_all_filter {V : Type} (ks : list string) (d : dict V) :
  without_all ks d = filter (λ kv, kv.1 ∉ ks) d.
Proof.
  unfold without_all. revert d. induction ks as [|k ks IH]; intros d; simpl.
  - symmetry. induction d as [|kv d IHd]; [done|].
    rewrite filter_cons, decide_True by apply not_elem_of_nil.
    by rewrite IHd.
  - rewrite IH. unfold without. rewrite list_filter_filter.
    apply list_filter_iff. intros kv. rewrite not_elem_of_cons. tauto.
Qed.

Lemma trova_file_corrispondenti_without (voci : list (string * string))
    (rinominati : gset string) (ks valori : list string) :
  trova_file_corrispondenti (without_all ks voci)
    (rinominati ∪ list_to_set ks) valori
  = filter (λ f, f ∉ ks) (trova_file_corrispondenti voci rinominati valori).
Proof.
  rewrite without_all_filter.
  induction voci as [|[f low] voci IH]; simpl; [done|].
  rewrite filter_cons. simpl. destruct (decide (f ∉ ks)) as [Hf|Hf].
  - simpl. case_bool_decide as Hren.
    + apply elem_of_union in Hren as [Hren|Hren%elem_of_list_to_set]; [|done].
      by rewrite bool_decide_eq_true_2.
    + apply not_elem_of_union in Hren as [Hren _].
      rewrite bool_decide_eq_false_2 by done.
      destruct (tutti_presenti valori low); [|done].
      rewrite filter_cons, decide_True by done. by rewrite IH.
  - rewrite IH. case_bool_decide; [done|].
    destruct (tutti_presenti valori low); [|done].
    by rewrite filter_cons, decide_False.
Qed.

Section Leftovers.
Context `{Platform}.

(** X9.  After a row is processed, the files any row matches are the
    files it matched before, without those the processed row renamed:
    files whose rename failed stay available, files that were renamed
    are gone. *)
Theorem later_rows_find_what_was_not_renamed (cols : list string)
    (folder : string) (idx : nat) (riga riga' : Series) (st : Store) :
  let st' := (process_row cols folder idx riga st).2 in
  file_corrispondenti cols riga' st'
  = filter (λ f, f ∉ renamed_by_row cols folder (idx, riga) st)
      (file_corrispondenti cols riga' st).
Proof.
  intros st'. unfold file_corrispondenti, renamed_by_row. simpl.
  destruct (process_row_spec cols folder idx riga st) as (_ & _ & Hr & Hi).
  fold st' in Hr, Hi. unfold items. rewrite Hi, Hr.
  apply trova_file_corrispondenti_without.
Qed.

End Leftovers.

(** * Instances of the further properties *)

Lemma renamed_set_test_never_fires_witness :
  let s := (process_row guess_columns folder 0 riga_A st0).2 in
  s ∈ stores_before guess_columns folder [(0%nat, riga_A); (1%nat, riga_B)] st0
  ∧ (∀ f, f ∈ keys (indice_file s) → f ∉ file_rinominati s)
  ∧ (∀ f, f ∈ file_rinominati s → f ∉ keys (indice_file s))
  ∧ ∀ valori,
      trova_file_corrispondenti (items (indice_file s)) (file_rinominati s)
        valori
      = trova_file_corrispondenti (items (indice_file s)) ∅ valori.
Proof.
  intros s.
  assert (s ∈ stores_before guess_columns folder
                [(0%nat, riga_A); (1%nat, riga_B)] st0) as Hs.
  { simpl. apply list_elem_of_further, list_elem_of_here. }
  split; [exact Hs|].
  exact (@renamed_set_test_never_fires Disk.platform guess_columns folder
           [(0%nat, riga_A); (1%nat, riga_B)]
           ["red-shoe.jpg"; "red-shoe-2.jpg"; "notes.txt"] red_shoes s Hs).
Defined.

Lemma renamed_count_balances_the_index_witness :
  ∃ conteggio st report,
    run (Some [foglio [riga_A; riga_B]]) red_shoes
      = Completed conteggio st report
    ∧ conteggio = length (renamed_files (rename_calls st))
    ∧ conteggio = size (file_rinominati st).
Proof.
  destruct (run (Some [foglio [riga_A; riga_B]]) red_shoes)
    as [| | | |conteggio st report] eqn:Hrun;
    [vm_compute in Hrun; discriminate..|].
  exists conteggio, st, report. split; [reflexivity|].
  destruct (renamed_count_balances_the_index "pe25" "guess" _ _ _ _ _ Hrun)
    as (tutti_file & _ & _ & Hcalls & Hsize & _).
  split; [exact Hcalls | exact Hsize].
Defined.

Lemma matches_follow_the_listing_order_witness :
  st0 ∈ stores_before guess_columns folder [(0%nat, riga_A)] st0
  ∧ file_corrispondenti guess_columns riga_A st0
    = filter (λ f, tutti_presenti
                     (values (estrai_valori guess_columns riga_A []))
                     (lower f) = true)
        (keys (indice_file st0))
  ∧ NoDup (file_corrispondenti guess_columns riga_A st0).
Proof.
  assert (st0 ∈ stores_before guess_columns folder [(0%nat, riga_A)] st0)
    as Hs by (simpl; apply list_elem_of_here).
  split; [exact Hs|].
  destruct (@matches_follow_the_listing_order Disk.platform guess_columns folder
              [(0%nat, riga_A)]
              ["red-shoe.jpg"; "red-shoe-2.jpg"; "notes.txt"] red_shoes st0
              riga_A Hs) as (Heq & Hnd & _).
  split; [exact Heq | exact Hnd].
Defined.

Lemma row_without_values_matches_every_file_witness :
  st0 ∈ stores_before guess_columns folder [(0%nat, riga_vuota)] st0
  ∧ (∀ colonna testo, colonna ∈ guess_columns →
       present_cell colonna riga_vuota = Some testo →
       strip (lower testo) = "")
  ∧ file_corrispondenti guess_columns riga_vuota st0
    = ["red-shoe.jpg"; "red-shoe-2.jpg"].
Proof.
  assert (st0 ∈ stores_before guess_columns folder [(0%nat, riga_vuota)] st0)
    as Hs by (simpl; apply list_elem_of_here).
  assert (∀ colonna testo, colonna ∈ guess_columns →
            present_cell colonna riga_vuota = Some testo →
            strip (lower testo) = "") as Hblank.
  { intros colonna testo Hin. unfold guess_columns in Hin.
    repeat (apply elem_of_cons in Hin as [->|Hin]);
      [by intros [=] | by intros [= <-] | by intros [=] |
       by apply elem_of_nil in Hin]. }
  split; [exact Hs|]. split; [exact Hblank|].
  exact (@row_without_values_matches_every_file Disk.platform guess_columns folder
           [(0%nat, riga_vuota)]
           ["red-shoe.jpg"; "red-shoe-2.jpg"; "notes.txt"] red_shoes st0
           riga_vuota Hs Hblank).
Defined.

Lemma matching_ignores_case_and_outer_blanks_witness :
  (∀ colonna, colonna ∈ guess_columns →
     (λ testo, strip (lower testo)) <$> present_cell colonna (riga " Red " "1")
     = (λ testo, strip (lower testo)) <$> present_cell colonna (riga "RED" "2"))
  ∧ file_corrispondenti guess_columns (riga " Red " "1") st0
    = file_corrispondenti guess_columns (riga "RED" "2") st0.
Proof.
  assert (∀ colonna, colonna ∈ guess_columns →
     (λ testo, strip (lower testo)) <$> present_cell colonna (riga " Red " "1")
     = (λ testo, strip (lower testo)) <$> present_cell colonna (riga "RED" "2"))
    as Hsame.
  { intros colonna Hin. unfold guess_columns in Hin.
    repeat (apply elem_of_cons in Hin as [->|Hin]);
      [reflexivity | reflexivity | reflexivity | by apply elem_of_nil in Hin]. }
  split; [exact Hsame|].
  exact (proj2 (matching_ignores_case_and_outer_blanks guess_columns
                  (riga " Red " "1") (riga "RED" "2") st0 Hsame)).
Defined.

Lemma more_values_match_fewer_files_witness :
  (∀ v, v ∈ ["red"] → v ∈ ["red"; "shoe-2"])
  ∧ sublist
      (trova_file_corrispondenti (items (indice_file st0)) ∅
         ["red"; "shoe-2"])
      (trova_file_corrispondenti (items (indice_file st0)) ∅ ["red"]).
Proof.
  assert (∀ v : string, v ∈ ["red"] → v ∈ ["red"; "shoe-2"]) as Hsub.
  { intros v ->%list_elem_of_singleton. apply list_elem_of_here. }
  split; [exact Hsub|].
  exact (more_values_match_fewer_files (items (indice_file st0)) ∅
           ["red"] ["red"; "shoe-2"] Hsub).
Defined.

Lemma photo_keeps_its_extension_witness :
  endswith (lower "red-shoe.JPG") FILE_EXTENSION = true
  ∧ has_char sep "red-shoe.JPG" = false
  ∧ ∃ stem ext,
      "red-shoe.JPG" = stem +:+ ext
      ∧ lower ext = FILE_EXTENSION
      ∧ nuovo_nome "111" 0 "red-shoe.JPG"
        = "111" +:+ "-" +:+ str_of_nat 0
          +:+ (if has_non_dot stem (String.length stem) then ext else "").
Proof.
  split; [reflexivity|]. split; [reflexivity|].
  exact (photo_keeps_its_extension "111" 0 "red-shoe.JPG" eq_refl eq_refl).
Defined.

Lemma renames_stay_in_the_photo_folder_witness :
  startswith "red-shoe.jpg" "/" = false
  ∧ path_join (setup_paths "pe25" "guess").1.1 "red-shoe.jpg"
    = "./pe25/photoes/guess/red-shoe.jpg"
  ∧ path_join (setup_paths "pe25" "guess").1.1
      (nuovo_nome "111" 0 "red-shoe.jpg")
    = "./pe25/photoes/guess/111-0.jpg".
Proof.
  split; [reflexivity|].
  destruct (renames_stay_in_the_photo_folder "pe25" "guess" "111" 0
              "red-shoe.jpg" eq_refl) as (_ & Hold & Hnew & _).
  split; [exact Hold | exact (Hnew eq_refl)].
Defined.


Lemma report_writer_never_raises_witness :
  (∀ record k, record ∈ ean_non_trovati st0 → k ∈ keys record →
     k ∈ ["riga_excel"; "ean"; "data"] ++ guess_columns)
  ∧ (make_report
       (ean_non_trovati
          (process_rows guess_columns folder
             [(0%nat, riga_A); (1%nat, riga_B)] 0 st0).2)
       "./pe25/reports" "guess" guess_columns
       (os_state
          (process_rows guess_columns folder
             [(0%nat, riga_A); (1%nat, riga_B)] 0 st0).2)).1
    ≠ WriteError.
Proof.
  assert (∀ record k, record ∈ ean_non_trovati st0 → k ∈ keys record →
            k ∈ ["riga_excel"; "ean"; "data"] ++ guess_columns) as Hold.
  { intros record k Hrec. by apply elem_of_nil in Hrec. }
  split; [exact Hold|].
  exact (proj1 (report_writer_never_raises guess_columns folder
                  [(0%nat, riga_A); (1%nat, riga_B)] 0 st0
                  "./pe25/reports" "guess" Hold)).
Defined.

Lemma rows_without_ean_change_nothing_witness :
  (∀ r, r ∈ [(0%nat, riga_senza_ean); (1%nat, riga_senza_ean)] →
     present_cell EAN_COLUMN r.2 = None)
  ∧ process_rows guess_columns folder
      [(0%nat, riga_senza_ean); (1%nat, riga_senza_ean)] 0 st0
    = (0%nat, st0).
Proof.
  assert (∀ r, r ∈ [(0%nat, riga_senza_ean); (1%nat, riga_senza_ean)] →
            present_cell EAN_COLUMN r.2 = None) as Hno.
  { intros r Hr.
    repeat (apply elem_of_cons in Hr as [->|Hr]);
      [reflexivity | reflexivity | by apply elem_of_nil in Hr]. }
  split; [exact Hno|].
  exact (proj1 (rows_without_ean_change_nothing guess_columns folder
                  [(0%nat, riga_senza_ean); (1%nat, riga_senza_ean)]
                  0 st0 Hno)).
Defined.

(** * The calls of [os.rename] *)

Section OsCalls.
Context `{Platform}.
Implicit Types (st : Store) (riga : Series).

Lemma length_os_renames (percorsi : list (string * string)) (o : OS) :
  length (os_renames percorsi o).1 = length percorsi.
Proof.
  revert o. induction percorsi as [|[v n] percorsi IH]; intros o; simpl; [done|].
  destruct (os_rename v n o) as [ok o1].
  specialize (IH o1). destruct (os_renames percorsi o1) as [esiti o2].
  simpl in *. by rewrite IH.
Qed.

(** The loop of [rename_files] calls [os.rename] on the paths of its
    files, one after the other, each call in the environment the call
    before it left. *)
Lemma rename_loop_os (files : list string) (ean photo_folder : string) :
  ∀ (i n : nat) st,
  let r := rename_loop i files ean photo_folder n st in
  let esiti :=
    os_renames
      (imap (λ j f, (path_join photo_folder f,
                     path_join photo_folder (nuovo_nome ean (i + j) f))) files)
      (os_state st) in
  os_state r.2 = esiti.2 ∧ call_ok <$> new_calls st r.2 = esiti.1.
Proof.
  induction files as [|f files IH]; intros i n st; simpl.
  - unfold new_calls. by rewrite drop_all.
  - rewrite rename_one_spec. simpl. rewrite Nat.add_0_r.
    destruct (os_rename _ _ _) as [ok o] eqn:Hos. simpl.
    match goal with |- context [rename_loop _ _ _ _ ?n' ?st'] =>
      destruct (IH (S i) n' st') as [Ho Hok];
      destruct (rename_loop_spec files ean photo_folder (S i) n' st')
        as (calls & Hc & _);
      pose proof (new_calls_app st' _ calls Hc) as Hnew;
      set (r2 := (rename_loop (S i) files ean photo_folder n' st').2) in *
    end.
    rewrite Hnew in Hok. simpl in Hc, Ho.
    rewrite <- app_assoc in Hc.
    rewrite (new_calls_app st r2 _ Hc).
    assert (imap ((λ j f0, (path_join photo_folder f0,
                            path_join photo_folder (nuovo_nome ean (i + j) f0)))
                  ∘ S) files
            = imap (λ j f0, (path_join photo_folder f0,
                             path_join photo_folder
                               (nuovo_nome ean (S i + j) f0))) files) as ->.
    { apply imap_ext. intros j x _. simpl. do 3 f_equal. lia. }
    destruct (os_renames _ o) as [esiti o'] eqn:Hrest. simpl in Ho, Hok.
    rewrite fmap_app, Hok, Ho. simpl. by rewrite Hrest.
Qed.

Lemma rename_files_os (files : list string) (ean photo_folder : string) st :
  let r := rename_files files ean photo_folder st in
  let esiti :=
    os_renames
      (imap (λ i f, (path_join photo_folder f,
                     path_join photo_folder (nuovo_nome ean i f))) files)
      (os_state st) in
  os_state r.2 = esiti.2 ∧ call_ok <$> new_calls st r.2 = esiti.1.
Proof. apply (rename_loop_os files ean photo_folder 0 0 st). Qed.

(** The number of calls that succeeded, read off their answers. *)
Lemma length_filter_succeeded (calls : list RenameCall) :
  length (filter succeeded calls)
  = length (filter (λ ok, ok = true) (call_ok <$> calls)).
Proof.
  induction calls as [|c calls IH]; [done|].
  rewrite fmap_cons, !filter_cons. unfold succeeded at 1.
  destruct (decide (call_ok c = true)); simpl; by rewrite IH.
Qed.

(** The files of the calls that succeeded, by position. *)
Lemma elem_of_renamed_files (calls : list RenameCall) (f : string) :
  f ∈ renamed_files calls
  ↔ ∃ i, (call_file <$> calls) !! i = Some f
         ∧ (call_ok <$> calls) !! i = Some true.
Proof.
  unfold renamed_files. rewrite list_elem_of_fmap. split.
  - intros (c & -> & [Hok Hin]%list_elem_of_filter).
    apply list_elem_of_lookup in Hin as [i Hi]. exists i.
    rewrite !list_lookup_fmap, Hi. simpl. by rewrite Hok.
  - intros (i & Hf & Hok).
    rewrite list_lookup_fmap in Hf. rewrite list_lookup_fmap in Hok.
    destruct (calls !! i) as [c|] eqn:Hi; [|done].
    simpl in *. injection Hf as <-. injection Hok as Hok.
    exists c. split; [done|]. apply list_elem_of_filter.
    split; [done|]. by eapply list_elem_of_lookup_2.
Qed.

(** The calls a row with an EAN makes. *)
Lemma process_row_os cols folder idx riga st testo :
  present_cell EAN_COLUMN riga = Some testo →
  let files := file_corrispondenti cols riga st in
  let st' := (process_row cols folder idx riga st).2 in
  let esiti :=
    os_renames
      (imap (λ i f, (path_join folder f,
                     path_join folder (nuovo_nome (strip testo) i f))) files)
      (os_state st) in
  call_file <$> new_calls st st' = files
  ∧ call_target <$> new_calls st st' = imap (nuovo_nome (strip testo)) files
  ∧ call_ok <$> new_calls st st' = esiti.1
  ∧ (files ≠ [] → os_state st' = esiti.2).
Proof.
  intros Hean files st' esiti.
  destruct (decide (files = [])) as [Hnil|Hne].
  - assert (new_calls st st' = []) as ->.
    { subst st'. unfold files in Hnil.
      rewrite (process_row_not_found _ _ _ _ _ _ Hean Hnil).
      unfold new_calls. simpl. apply drop_all. }
    subst esiti. by rewrite Hnil.
  - subst st' esiti. unfold files in Hne.
    rewrite (process_row_found _ _ _ _ _ _ Hean Hne). fold files.
    destruct (rename_files_spec files (strip testo) folder
                (append_codesi (strip testo) st)) as (_ & Hf & Ht & _).
    destruct (rename_files_os files (strip testo) folder
                (append_codesi (strip testo) st)) as [Ho Hok].
    simpl in *.
    set (st' := (rename_files _ _ _ _).2) in *.
    assert (new_calls st st' = new_calls (append_codesi (strip testo) st) st')
      as -> by done.
    done.
Qed.

(** The history of a sequence of rows: the calls of its rows, one row
    after the other, and the count the sequence returns. *)
Lemma process_rows_history cols folder righe :
  ∀ renamed st,
  let rr := process_rows cols folder righe renamed st in
  rename_calls rr.2 = rename_calls st ++ new_calls st rr.2
  ∧ rr.1 = (renamed + length (filter succeeded (new_calls st rr.2)))%nat
  ∧ ∀ j idx riga sj,
      righe !! j = Some (idx, riga) →
      stores_before cols folder righe st !! j = Some sj →
      ∃ prima dopo,
        new_calls st rr.2
        = prima ++ new_calls sj (process_row cols folder idx riga sj).2 ++ dopo.
Proof.
  induction righe as [|[idx riga] righe IH]; intros renamed st; simpl.
  - unfold new_calls. rewrite drop_all, app_nil_r. simpl.
    split_and!; [done | lia | done].
  - destruct (process_row_spec cols folder idx riga st) as (Hc1 & _).
    destruct (process_row_calls cols folder idx riga st) as (_ & Hn1).
    destruct (process_row cols folder idx riga st) as [n st1] eqn:Hrow.
    simpl in *.
    destruct (IH (renamed + n)%nat st1) as (Hc2 & Hn2 & Hrows).
    set (rr := process_rows cols folder righe (renamed + n) st1) in *.
    assert (rename_calls rr.2
            = rename_calls st ++ (new_calls st st1 ++ new_calls st1 rr.2))
      as Hc by (by rewrite Hc2, Hc1 at 1; rewrite <- app_assoc).
    rewrite (new_calls_app _ _ _ Hc). split_and!.
    + done.
    + rewrite Hn2, Hn1, filter_app, length_app. unfold renamed_files.
      rewrite length_fmap. lia.
    + intros [|j] idx' riga' sj; simpl.
      * intros [= <- <-] [= <-]. exists [], (new_calls st1 rr.2).
        by rewrite Hrow.
      * intros Hj Hs. destruct (Hrows j idx' riga' sj Hj Hs)
          as (prima & dopo & ->).
        exists (new_calls st st1 ++ prima), dopo. by rewrite <- app_assoc.
Qed.

End OsCalls.

(** * Assignment, seen from the file system *)


Section Assignment.
Context `{Platform}.
Implicit Types (st : Store) (riga : Series).



(** C8.  [rename_files] calls [os.rename] on every file of the batch,
    in order, each call in the environment the call before it left and
    whatever the earlier calls answered; the environment after the
    batch is the one the last call leaves.  The number it returns is
    the number of calls that succeeded; the files of those calls, and
    no others, enter the renamed set and leave the index.  The loop
    over the rows goes on in the same way: the count of a sequence of
    rows is the number of its calls that succeeded, and every row with
    an EAN, whatever the rows before it did, has [os.rename] called on
    each file it matches, these calls being part of the history of the
    sequence. *)
Theorem rename_failure_does_not_abort_batch (files : list string)
    (ean photo_folder : string) (st : Store) :
  let r := rename_files files ean photo_folder st in
  let calls := new_calls st r.2 in
  let percorsi :=
    imap (λ i f, (path_join photo_folder f,
                  path_join photo_folder (nuovo_nome ean i f))) files in
  let esiti := (os_renames percorsi (os_state st)).1 in
  os_state r.2 = (os_renames percorsi (os_state st)).2
  ∧ length esiti = length files
  ∧ call_file <$> calls = files
  ∧ call_ok <$> calls = esiti
  ∧ r.1 = length (filter (λ ok, ok = true) esiti)
  ∧ (∀ f, f ∈ file_rinominati r.2
          ↔ f ∈ file_rinominati st
            ∨ ∃ i, files !! i = Some f ∧ esiti !! i = Some true)
  ∧ (∀ f, f ∈ keys (indice_file r.2)
          ↔ f ∈ keys (indice_file st)
            ∧ ¬ ∃ i, files !! i = Some f ∧ esiti !! i = Some true)
  ∧ ∀ cols righe renamed st0,
      let rr := process_rows cols photo_folder righe renamed st0 in
      rr.1 = (renamed + length (filter succeeded (new_calls st0 rr.2)))%nat
      ∧ ∀ j idx riga sj testo,
          righe !! j = Some (idx, riga) →
          stores_before cols photo_folder righe st0 !! j = Some sj →
          present_cell EAN_COLUMN riga = Some testo →
          let matched := file_corrispondenti cols riga sj in
          let calls_j :=
            new_calls sj (process_row cols photo_folder idx riga sj).2 in
          call_file <$> calls_j = matched
          ∧ call_ok <$> calls_j
            = (os_renames
                 (imap (λ i f, (path_join photo_folder f,
                                path_join photo_folder
                                  (nuovo_nome (strip testo) i f))) matched)
                 (os_state sj)).1
          ∧ ∃ prima dopo, new_calls st0 rr.2 = prima ++ calls_j ++ dopo.
Proof.
  intros r calls percorsi esiti.
  destruct (rename_files_spec files ean photo_folder st)
    as (_ & Hf & _ & Hn & Hr & Hi & _).
  destruct (rename_files_os files ean photo_folder st) as [Ho Hok].
  fold r calls percorsi in Hf, Hn, Hr, Hi, Ho, Hok. fold esiti in Hok.
  assert (∀ f, f ∈ renamed_files calls
               ↔ ∃ i, files !! i = Some f ∧ esiti !! i = Some true) as Hren.
  { intros f. rewrite elem_of_renamed_files. by rewrite Hf, Hok. }
  split_and!.
  - exact Ho.
  - unfold esiti. rewrite length_os_renames. unfold percorsi.
    apply length_imap.
  - exact Hf.
  - exact Hok.
  - rewrite Hn, length_filter_succeeded. by rewrite Hok.
  - intros f. rewrite Hr, elem_of_union, elem_of_list_to_set. by rewrite Hren.
  - intros f. rewrite Hi, keys_without_all. by rewrite Hren.
  - intros cols righe renamed st0 rr.
    destruct (process_rows_history cols photo_folder righe renamed st0)
      as (_ & Hcount & Hrows).
    split; [exact Hcount|].
    intros j idx riga sj testo Hj Hs Hean matched calls_j.
    destruct (process_row_os cols photo_folder idx riga sj testo Hean)
      as (Hfj & _ & Hokj & _).
    split_and!; [exact Hfj | exact Hokj | by eapply Hrows].
Qed.

(** C9, amended.  On a batch of names that are not in the index,
    [rename_files] still calls [os.rename] on every name.  Where the
    call succeeds the name enters the renamed set and is counted, and
    the [del] that follows raises [KeyError]; the handler of the loop
    catches it, so that turn ends with the index as it was and the loop
    goes on.  The call returns the number of renames that succeeded and
    leaves the index, hence the number of its entries, unchanged. *)
Theorem removal_of_absent_name_is_caught (files : list string)
    (ean photo_folder : string) (st : Store) :
  (∀ nome_file, nome_file ∈ files → nome_file ∉ keys (indice_file st)) →
  let r := rename_files files ean photo_folder st in
  let percorsi :=
    imap (λ i f, (path_join photo_folder f,
                  path_join photo_folder (nuovo_nome ean i f))) files in
  let esiti := (os_renames percorsi (os_state st)).1 in
  indice_file r.2 = indice_file st
  ∧ length (indice_file r.2) = length (indice_file st)
  ∧ os_state r.2 = (os_renames percorsi (os_state st)).2
  ∧ call_file <$> new_calls st r.2 = files
  ∧ call_ok <$> new_calls st r.2 = esiti
  ∧ r.1 = length (filter (λ ok, ok = true) esiti)
  ∧ (∀ i f, files !! i = Some f → esiti !! i = Some true →
       del f (indice_file st) = None ∧ f ∈ file_rinominati r.2)
  ∧ ∀ i f n (s : Store),
      f ∉ keys (indice_file s) →
      let esito := os_rename (path_join photo_folder f)
                     (path_join photo_folder (nuovo_nome ean i f))
                     (os_state s) in
      esito.1 = true →
      del f (indice_file s) = None
      ∧ rename_one i f ean photo_folder n s
        = (S n,
           {| indice_file := indice_file s;
              file_rinominati := file_rinominati s ∪ {[f]};
              ean_non_trovati := ean_non_trovati s; codeno := codeno s;
              codesi := codesi s; os_state := esito.2;
              rename_calls :=
                rename_calls s
                ++ [{| call_file := f; call_target := nuovo_nome ean i f;
                       call_ok := true |}] |}).
Proof.
  intros Habs r percorsi esiti.
  destruct (rename_files_spec files ean photo_folder st)
    as (_ & Hf & _ & Hn & Hr & Hi & _).
  destruct (rename_files_os files ean photo_folder st) as [Ho Hok].
  fold r percorsi in Hf, Hn, Hr, Hi, Ho, Hok. fold esiti in Hok.
  assert (indice_file r.2 = indice_file st) as Heq.
  { rewrite Hi. apply without_all_absent. intros k Hk. apply Habs.
    rewrite <- Hf. by apply renamed_files_subseteq. }
  split_and!.
  - exact Heq.
  - by rewrite Heq.
  - exact Ho.
  - exact Hf.
  - exact Hok.
  - rewrite Hn, length_filter_succeeded. by rewrite Hok.
  - intros i f Hi' Hoki. split.
    + apply del_None, Habs. by eapply list_elem_of_lookup_2.
    + rewrite Hr, elem_of_union, elem_of_list_to_set. right.
      apply elem_of_renamed_files. exists i. by rewrite Hf, Hok.
  - intros i f n s Hnot esito Htrue. split; [by apply del_None|].
    rewrite rename_one_spec. fold esito. rewrite Htrue.
    by rewrite without_absent.
Qed.

End Assignment.

(** * How a run and [main] end *)

Section Endings.
Context `{Platform}.
Implicit Types (st : Store) (riga : Series).

(** Sheets that have the columns asked of [pd.read_excel] never reach
    a [sys.exit]. *)
Lemma process_sheets_no_exit cols folder (fogli : list (option DataFrame)) :
  (∀ df, Some df ∈ fogli → columns_present cols df = true) →
  ∀ n st, (process_sheets fogli cols folder n st).1 ≠ Raised SystemExit.
Proof.
  induction fogli as [|foglio fogli IH]; intros Hcols n st; simpl; [done|].
  destruct foglio as [df|]; simpl; [|done].
  rewrite (Hcols df) by left.
  destruct (process_rows cols folder (iterrows df) 0 st) as [k st1].
  apply IH. intros df' Hdf'. apply Hcols. by right.
Qed.

(** X15.  When [pd.read_excel] raises on a sheet, as it does when the
    sheet lacks a column named in [usecols], the run stops there with a
    plain return and writes no report: the rows of the sheets before it
    have been processed and their renames stay, no row of that sheet or
    of a later one is processed.  A workbook that cannot be opened
    stops the run before any row. *)
Theorem unreadable_sheet_stops_the_run (season brand_name : string)
    (dfs : list DataFrame) (rest : list (option DataFrame)) (o : OS)
    (cols tutti_file : list string) :
  let photo_folder := (setup_paths season brand_name).1.1 in
  let reports_folder := (setup_paths season brand_name).2 in
  let o1 := optimize_images_in_folder photo_folder
              (make_report_dir reports_folder o) in
  get brand_name BRAND_COLUMN_MAPPINGS = Some cols →
  os_listdir photo_folder o1 = Some tutti_file →
  Forall (λ df, columns_present cols df = true) dfs →
  let st := (process_rows cols photo_folder (concat (iterrows <$> dfs)) 0
               (initial_store tutti_file o1)).2 in
  rinomina_foto_in_batch season brand_name
    (Some ((Some <$> dfs) ++ None :: rest)) o
  = ExcelError st
  ∧ rinomina_foto_in_batch season brand_name None o
    = ExcelError (initial_store tutti_file o1).
Proof.
  intros photo_folder reports_folder o1 Hbrand Hls Hgood st.
  unfold rinomina_foto_in_batch.
  destruct (setup_paths season brand_name) as [[pf ef] rf] eqn:Hpaths.
  cbn [fst snd] in photo_folder, reports_folder.
  subst photo_folder reports_folder.
  rewrite Hbrand. fold o1. rewrite Hls. split; [|done].
  by rewrite (process_sheets_stops cols pf dfs None rest Hgood eq_refl).
Qed.

(** X17.  Given sheets that have the columns asked of
    [pd.read_excel], [main] ends in [sys.exit] exactly when fewer than
    two arguments are given or the brand is not a key of
    [BRAND_COLUMN_MAPPINGS], and it does so before anything is touched;
    otherwise it runs [rinomina_foto_in_batch] on the first two
    arguments, and that run neither fails on the brand lookup nor
    exits. *)
Theorem main_runs_only_for_a_known_brand (argv : list string)
    (excel : option (list (option DataFrame))) (o : OS) :
  (∀ brand_name cols fogli df,
     argv !! 2%nat = Some brand_name →
     get brand_name BRAND_COLUMN_MAPPINGS = Some cols →
     excel = Some fogli → Some df ∈ fogli →
     columns_present cols df = true) →
  let bad_arguments :=
    (length argv < 3)%nat
    ∨ ∀ brand_name, argv !! 2%nat = Some brand_name →
        brand_name ∉ keys BRAND_COLUMN_MAPPINGS in
  ((∃ o', main argv excel o = SysExit o') ↔ bad_arguments)
  ∧ (bad_arguments → main argv excel o = SysExit o)
  ∧ (∀ r, main argv excel o = Finished r →
       ∃ nome season brand_name altri,
         argv = nome :: season :: brand_name :: altri
         ∧ brand_name ∈ keys BRAND_COLUMN_MAPPINGS
         ∧ r = rinomina_foto_in_batch season brand_name excel o
         ∧ r ≠ UnknownBrand
         ∧ ∀ st, r ≠ Exited st).
Proof.
  intros Hsheets bad_arguments. subst bad_arguments.
  unfold main, parse_command_line_args.
  case_bool_decide as Hlen.
  - split_and!; [|done|done]. split; [by left | by eexists].
  - destruct argv as [|nome [|season [|brand_name altri]]];
      simpl in Hlen; try lia.
    cbn -[mem keys get BRAND_COLUMN_MAPPINGS rinomina_foto_in_batch].
    destruct (mem brand_name BRAND_COLUMN_MAPPINGS) eqn:Hmem;
      cbn -[mem keys get BRAND_COLUMN_MAPPINGS rinomina_foto_in_batch].
    + apply mem_spec in Hmem.
      assert (rinomina_foto_in_batch season brand_name excel o ≠ UnknownBrand
              ∧ ∀ st, rinomina_foto_in_batch season brand_name excel o
                      ≠ Exited st) as [Hknown Hnoexit].
      { unfold rinomina_foto_in_batch.
        destruct (setup_paths season brand_name) as [[pf ef] rf].
        destruct (get brand_name BRAND_COLUMN_MAPPINGS) as [cols|] eqn:Hget;
          [|by apply get_None in Hget].
        destruct (os_listdir _ _); [|done].
        destruct excel as [fogli|]; [|done].
        match goal with |- context [process_sheets fogli cols pf 0 ?s] =>
          pose proof (process_sheets_no_exit cols pf fogli
                        (λ df Hdf, Hsheets brand_name cols fogli df
                                     eq_refl Hget eq_refl Hdf) 0 s) as Hno;
          destruct (process_sheets fogli cols pf 0 s) as [[k|[]] s']
        end; [|done|done].
        by destruct (make_report _ _ _ _ _). }
      split_and!.
      * split; [|intros [?|Hnot]; [lia | by destruct (Hnot brand_name eq_refl)]].
        intros [o' Ho'].
        destruct (rinomina_foto_in_batch season brand_name excel o) eqn:Hrun;
          try discriminate.
        by destruct (Hnoexit st).
      * intros [?|Hnot]; [lia | by destruct (Hnot brand_name eq_refl)].
      * intros r Hr. exists nome, season, brand_name, altri.
        assert (r = rinomina_foto_in_batch season brand_name excel o) as ->.
        { destruct (rinomina_foto_in_batch season brand_name excel o);
            congruence. }
        done.
    + assert (∀ b, Some brand_name = Some b →
                   b ∉ keys BRAND_COLUMN_MAPPINGS) as Hnot.
      { intros b [= <-] Hin. apply mem_spec in Hin. congruence. }
      split_and!; [|done|done]. split; [by right | by eexists].
Qed.

End Endings.

(** C6, on the code.  A sheet whose single row has an EAN cell of
    blanks and attribute values that no photo carries.  The EAN is
    blank after trimming, so the sheet has no valid row and no valid
    row without photos; yet the row is processed with the empty EAN,
    tallied as unmatched, and a report is written with one record for
    it. *)
Theorem blank_ean_row_is_tallied_and_reported :
  strip "   " = ""
  ∧ present_cell EAN_COLUMN (riga "green" "   ") = Some "   "
  ∧ file_corrispondenti guess_columns (riga "green" "   ") st0 = []
  ∧ ∃ st r,
      run (Some [foglio [riga "green" "   "]]) red_shoes
      = Completed 0 st (Written r)
      ∧ codeno st = [""]
      ∧ length (ean_non_trovati st) = 1%nat
      ∧ report_header r = ["riga_excel"; "ean"; "data"; "Model"; "Part"; "Color"]
      ∧ report_rows r = [["1"; ""; "2025-03-01 10:00:00"; ""; ""; "green"]].
Proof.
  split_and!; [vm_compute; reflexivity..|].
  eexists _, _. split_and!; vm_compute; reflexivity.
Qed.

(** * Instances on the example folders *)

(** Counterexample to C9.  The photo [red-shoe-2.jpg] is in the folder
    but not in the index: [os.rename] succeeds on it, and the [del]
    that follows raises.  So does [del] on a name that is nowhere. *)
Lemma del_of_absent_name_raises :
  ("red-shoe-2.jpg" ∉ keys (indice_file st_stale))
  ∧ (os_rename (path_join folder "red-shoe-2.jpg")
       (path_join folder (nuovo_nome "111" 0 "red-shoe-2.jpg"))
       (os_state st_stale)).1 = true
  ∧ del "red-shoe-2.jpg" (indice_file st_stale) = None
  ∧ ("ghost.jpg" ∉ keys (indice_file st0))
  ∧ del "ghost.jpg" (indice_file st0) = None.
Proof.
  split_and!; try (vm_compute; reflexivity);
    apply (bool_decide_unpack _); vm_compute; exact I.
Qed.


Lemma rename_failure_does_not_abort_batch_witness :
  let r := rename_files ["red-shoe.jpg"; "red-shoe-2.jpg"] "111" folder
             st_locked in
  call_file <$> new_calls st_locked r.2 = ["red-shoe.jpg"; "red-shoe-2.jpg"]
  ∧ call_ok <$> new_calls st_locked r.2 = [false; true]
  ∧ r.1 = 1%nat
  ∧ Disk.files (os_state r.2)
    = [folder +:+ "red-shoe.jpg"; folder +:+ "111-1.jpg";
       folder +:+ "notes.txt"]
  ∧ "red-shoe-2.jpg" ∈ file_rinominati r.2
  ∧ ("red-shoe.jpg" ∉ file_rinominati r.2).
Proof.
  intros r.
  destruct (@rename_failure_does_not_abort_batch Disk.platform
              ["red-shoe.jpg"; "red-shoe-2.jpg"] "111" folder st_locked)
    as (Ho & _ & Hf & Hok & Hn & Hset & _).
  split; [exact Hf|].
  split; [etrans; [exact Hok | vm_compute; reflexivity]|].
  split; [etrans; [exact Hn | vm_compute; reflexivity]|].
  split; [unfold r; rewrite Ho; vm_compute; reflexivity|].
  split.
  - apply Hset. right. exists 1%nat. split; vm_compute; reflexivity.
  - intros [Hold|(i & Hi & Hoki)]%Hset.
    + revert Hold. apply (bool_decide_unpack _). vm_compute. exact I.
    + destruct i as [|[|i]]; vm_compute in Hi, Hoki; discriminate.
Defined.

Lemma removal_of_absent_name_is_caught_witness :
  let files := ["red-shoe-2.jpg"; "ghost.jpg"] in
  let r := rename_files files "111" folder st_stale in
  (∀ nome_file, nome_file ∈ files →
     nome_file ∉ keys (indice_file st_stale))
  ∧ call_ok <$> new_calls st_stale r.2 = [true; false]
  ∧ r.1 = 1%nat
  ∧ indice_file r.2 = indice_file st_stale
  ∧ del "red-shoe-2.jpg" (indice_file st_stale) = None
  ∧ "red-shoe-2.jpg" ∈ file_rinominati r.2
  ∧ Disk.files (os_state r.2)
    = [folder +:+ "red-shoe.jpg"; folder +:+ "111-0.jpg";
       folder +:+ "notes.txt"].
Proof.
  intros files r.
  assert (∀ nome_file, nome_file ∈ files →
            nome_file ∉ keys (indice_file st_stale)) as Habs.
  { intros f Hf. unfold files in Hf.
    repeat (apply elem_of_cons in Hf as [->|Hf]);
      [apply (bool_decide_unpack _); vm_compute; exact I..
      | by apply elem_of_nil in Hf]. }
  destruct (@removal_of_absent_name_is_caught Disk.platform files "111"
              folder st_stale Habs)
    as (Hidx & _ & Ho & _ & Hok & Hn & Hdel & _).
  destruct (Hdel 0%nat "red-shoe-2.jpg" eq_refl
              ltac:(vm_compute; reflexivity)) as [Hraise Hset].
  split; [exact Habs|].
  split; [etrans; [exact Hok | vm_compute; reflexivity]|].
  split; [etrans; [exact Hn | vm_compute; reflexivity]|].
  split; [exact Hidx|]. split; [exact Hraise|]. split; [exact Hset|].
  unfold r. rewrite Ho. vm_compute. reflexivity.
Defined.

Lemma unreadable_sheet_stops_the_run_witness :
  get "guess" BRAND_COLUMN_MAPPINGS = Some guess_columns
  ∧ Disk.listdir folder (Disk.makedirs "./pe25/reports" red_shoes)
    = Some ["red-shoe.jpg"; "red-shoe-2.jpg"; "notes.txt"]
  ∧ Forall (λ df, columns_present guess_columns df = true) [df_A]
  ∧ esito (run (Some ((Some <$> [df_A]) ++ None :: [foglio [riga_B]]))
             red_shoes) = None
  ∧ ∃ st, run (Some ((Some <$> [df_A]) ++ None :: [foglio [riga_B]]))
            red_shoes = ExcelError st
          ∧ codesi st = ["111"] ∧ codeno st = []
          ∧ Disk.files (os_state st)
            = [folder +:+ "111-0.jpg"; folder +:+ "111-1.jpg";
               folder +:+ "notes.txt"].
Proof.
  assert (Forall (λ df, columns_present guess_columns df = true) [df_A])
    as Hgood by (apply Forall_singleton; reflexivity).
  split; [reflexivity|]. split; [reflexivity|]. split; [exact Hgood|].
  pose proof (proj1 (@unreadable_sheet_stops_the_run Disk.platform "pe25"
                       "guess" [df_A] [foglio [riga_B]] red_shoes
                       guess_columns
                       ["red-shoe.jpg"; "red-shoe-2.jpg"; "notes.txt"]
                       eq_refl eq_refl Hgood)) as Hrun.
  split.
  - unfold run. rewrite Hrun. reflexivity.
  - eexists. split; [exact Hrun|]. split_and!; vm_compute; reflexivity.
Defined.

Lemma main_runs_only_for_a_known_brand_witness :
  let argv := ["renamer.py"; "pe25"; "guess"] in
  let excel := Some [foglio [riga_A; riga_B]] in
  (∀ brand_name cols fogli df,
     argv !! 2%nat = Some brand_name →
     get brand_name BRAND_COLUMN_MAPPINGS = Some cols →
     excel = Some fogli → Some df ∈ fogli →
     columns_present cols df = true)
  ∧ (¬ ∃ o', @main Disk.platform argv excel red_shoes = SysExit o')
  ∧ @main Disk.platform argv excel red_shoes = Finished (run excel red_shoes)
  ∧ @main Disk.platform ["renamer.py"; "pe25"] excel red_shoes
    = @SysExit Disk.platform red_shoes.
Proof.
  intros argv excel.
  assert (∀ brand_name cols fogli df,
            argv !! 2%nat = Some brand_name →
            get brand_name BRAND_COLUMN_MAPPINGS = Some cols →
            excel = Some fogli → Some df ∈ fogli →
            columns_present cols df = true) as Hsheets.
  { intros brand_name cols fogli df [= <-] [= <-] [= <-] Hdf.
    apply list_elem_of_singleton in Hdf. injection Hdf as ->. reflexivity. }
  destruct (@main_runs_only_for_a_known_brand Disk.platform argv excel
              red_shoes Hsheets) as (Hiff & _ & Hfin).
  assert (¬ ∃ o', @main Disk.platform argv excel red_shoes = SysExit o')
    as Hno.
  { intros [Hshort|Hunknown]%Hiff;
      [unfold argv in Hshort; simpl in Hshort; lia|].
    apply (Hunknown "guess" eq_refl).
    apply (bool_decide_unpack _). vm_compute. exact I. }
  split; [exact Hsheets|]. split; [exact Hno|]. split.
  - destruct (@main Disk.platform argv excel red_shoes) as [o'|r] eqn:Hmain.
    + exfalso. apply Hno. by exists o'.
    + destruct (Hfin r eq_refl)
        as (nome & season & brand_name & altri & [= <- <- <- <-] & _ & -> & _).
      reflexivity.
  - apply (@main_runs_only_for_a_known_brand Disk.platform
             ["renamer.py"; "pe25"] excel red_shoes).
    + intros brand_name cols fogli df Hb. discriminate Hb.
    + left. simpl. lia.
Defined.
